(** * Project-Artemis: the table comparator of [compare_data.py]

    A shallow embedding of [DFComparator] (schema diff, value diff and the
    regression flag) together with the part of pandas it calls, and the
    properties of the specification that are settled against it.

    Conventions of the embedding.
    - A [DataFrame] is kept row-major: a list of column names, the dtype
      descriptor of every column, and the rows.  [len(df)] is the number of
      rows, also for a frame without columns.
    - A cell is [option V]: [None] is the missing marker (NaN / None / NaT)
      and [V] is the type of the present values, compared with the equality
      pandas uses once the two tables have been concatenated.
    - Python floats are not computed with: the three float operations met in
      the source (true division of two integers, multiplication by [100] and
      [round(_, 2)]) are the fields of the class [PyFloat].
    - Python sets are [gset string] and the dictionaries of the report are
      [gmap string _]; the iteration order of a Python set is unspecified and
      no statement below depends on the order [elements] picks.
    - The provenance column ['df_origin'] and the indicator column ['_merge']
      hold strings, not table values; they are carried as a tag next to every
      row.  This is exact for well-formed inputs, see [wf_comparator]. *)

From Stdlib Require Import ZArith Ascii.
From stdpp Require Import base strings gmap list.

Local Open Scope string_scope.
Local Open Scope list_scope.
Local Open Scope Z_scope.

(** ** Python strings *)

Module PyStr.

(** [c.lower()] on an ASCII letter; other characters are unchanged (dtype
    descriptors are ASCII). *)
Definition lower_ascii (c : ascii) : ascii :=
  let n := nat_of_ascii c in
  if ((65 <=? n)%nat && (n <=? 90)%nat)%bool then ascii_of_nat (n + 32) else c.

(** [s.lower()] *)
Fixpoint lower (s : string) : string :=
  match s with
  | EmptyString => EmptyString
  | String c s' => String (lower_ascii c) (lower s')
  end.

(** [t in s]: [t] occurs in [s] as a contiguous substring. *)
Fixpoint contains (t s : string) : bool :=
  String.prefix t s ||
  match s with
  | EmptyString => false
  | String _ s' => contains t s'
  end.

(** [any(t in s for t in ts)] *)
Definition any_in (ts : list string) (s : string) : bool :=
  existsb (fun t => contains t s) ts.

End PyStr.

(** ** The type-compatibility classifier *)

Definition numeric_types : list string := ["int"; "uint"; "float"; "bool"].
Definition string_types : list string := ["object"; "string"; "str"].
Definition datetime_types : list string := ["datetime"; "datetime64"; "timestamp"].

(** [DFComparator._are_types_compatible] *)
Definition _are_types_compatible (dtype1 dtype2 : string) : bool :=
  let dtype1_str := PyStr.lower dtype1 in
  let dtype2_str := PyStr.lower dtype2 in
  let is_numeric1 := PyStr.any_in numeric_types dtype1_str in
  let is_numeric2 := PyStr.any_in numeric_types dtype2_str in
  if is_numeric1 && is_numeric2 then true
  else
    let is_string1 := PyStr.any_in string_types dtype1_str in
    let is_string2 := PyStr.any_in string_types dtype2_str in
    if is_string1 && is_string2 then true
    else
      let is_datetime1 := PyStr.any_in datetime_types dtype1_str in
      let is_datetime2 := PyStr.any_in datetime_types dtype2_str in
      if is_datetime1 && is_datetime2 then true
      else if bool_decide (dtype1_str = dtype2_str) then true
      else false.


(** ** Python values, floats and exceptions *)

(** The float operations of the source, uninterpreted. *)
Class PyFloat (F : Type) := {
  truediv : Z -> Z -> F;          (* [a / b] on two integers *)
  fmul : F -> Z -> F;             (* [x * 100] *)
  round_ndigits : F -> Z -> F;    (* [round(x, 2)] *)
  float_zero : F                  (* [0.0] *)
}.

Inductive exn : Type :=
| KeyError (msg : string)
| ValueError (msg : string).

Inductive outcome (A : Type) : Type :=
| Ok (a : A)
| Raise (e : exn).
Arguments Ok {A} a.
Arguments Raise {A} e.

Definition bind {A B : Type} (m : outcome A) (k : A -> outcome B) : outcome B :=
  match m with
  | Ok a => k a
  | Raise e => Raise e
  end.

(** ** Frames and series (the part of pandas the comparator calls) *)

(** A cell; [None] is the missing marker. *)
Abbreviation cell V := (option V).

(** A row: one cell per column, in column order. *)
Abbreviation row V := (list (option V)).

Section Frames.
Context {V : Type} `{!EqDecision V}.

(** The column names and the rows of a table. *)
Record Frame := { columns : list string; data : list (row V) }.

(** A table as the caller hands it over: a frame and the dtype descriptor
    of each column ([str(df[col].dtype)]), in column order. *)
Record DataFrame := { frame :> Frame; dtypes : list string }.

(** [len(df)] *)
Definition len (df : Frame) : Z := Z.of_nat (length (data df)).

Definition col_index (cols : list string) (c : string) : option nat :=
  fst <$> list_find (fun x => x = c) cols.

(** The cell of row [r] under the column named [c].  Python raises for a
    name that is not a column; the comparator only reads columns it has
    found in the frame, so the missing marker stands in for that case. *)
Definition cell_at (cols : list string) (r : row V) (c : string) : cell V :=
  match col_index cols c with
  | Some i => default None (r !! i)
  | None => None
  end.

(** [str(df[col].dtype)] *)
Definition dtype_of (df : DataFrame) (c : string) : string :=
  match col_index (columns df) c with
  | Some i => default "" (dtypes df !! i)
  | None => ""
  end.

(** [df[cols]]: the columns [cols], in that order. *)
Definition select (cols : list string) (df : Frame) : Frame :=
  {| columns := cols;
     data := map (fun r => map (cell_at (columns df) r) cols) (data df) |}.

(** The restriction of a row to a list of columns. *)
Definition project (cols : list string) (on : list string) (r : row V) : row V :=
  map (cell_at cols r) on.

(** Number of elements of [l] with the key [k]. *)
Definition occurrences {A K : Type} `{!EqDecision K}
    (key : A -> K) (k : K) (l : list A) : nat :=
  length (filter (fun y => key y = k) l).

(** [drop_duplicates(subset=..., keep=False)]: every row whose key occurs
    more than once is dropped, all its occurrences included.  Two missing
    cells count as the same value.  (For an empty [subset] pandas versions
    differ; the statements below that go through this step ask for at
    least one compared column.) *)
Definition drop_duplicates_keep_false {A K : Type} `{!EqDecision K}
    (key : A -> K) (l : list A) : list A :=
  filter (fun x => occurrences key (key x) l = 1%nat) l.

(** *** Series *)

Inductive label : Type :=
| RangeLabel (n : nat)
| KeyLabel (k : row V).

#[global] Instance label_eq_dec : EqDecision label.
Proof. solve_decision. Defined.

Record Series (A : Type) := { s_index : list label; s_values : list A }.
Arguments s_index {A} _.
Arguments s_values {A} _.

(** [a == b] on two cells: a missing cell equals nothing. *)
Definition cell_eq (a b : cell V) : bool :=
  match a, b with
  | Some x, Some y => bool_decide (x = y)
  | _, _ => false
  end.

Definition cell_isna (a : cell V) : bool :=
  match a with None => true | Some _ => false end.

(** [s1 == s2]: only identically-labelled series can be compared. *)
Definition series_eq (s1 s2 : Series (cell V)) : outcome (Series bool) :=
  if bool_decide (s_index s1 = s_index s2) then
    Ok {| s_index := s_index s1;
          s_values := zip_with cell_eq (s_values s1) (s_values s2) |}
  else Raise (ValueError "Can only compare identically-labeled Series objects").

(** [s.isna()] *)
Definition series_isna (s : Series (cell V)) : Series bool :=
  {| s_index := s_index s; s_values := map cell_isna (s_values s) |}.

(** [m1 & m2] and [m1 | m2]; the source applies them to masks that carry
    the same labels, where they are positional. *)
Definition series_and (m1 m2 : Series bool) : Series bool :=
  {| s_index := s_index m1; s_values := zip_with andb (s_values m1) (s_values m2) |}.
Definition series_or (m1 m2 : Series bool) : Series bool :=
  {| s_index := s_index m1; s_values := zip_with orb (s_values m1) (s_values m2) |}.
(** [~m] *)
Definition series_not (m : Series bool) : Series bool :=
  {| s_index := s_index m; s_values := map negb (s_values m) |}.
(** [m.sum()] *)
Definition series_sum (m : Series bool) : Z :=
  Z.of_nat (length (filter (fun b => b = true) (s_values m))).

(** [(~((s1 == s2) | (s1.isna() & s2.isna()))).sum()] *)
Definition neq_count (s1 s2 : Series (cell V)) : outcome Z :=
  bind (series_eq s1 s2) (fun e =>
    Ok (series_sum (series_not
          (series_or e (series_and (series_isna s1) (series_isna s2)))))).

(** *** Indexing *)

(** A frame whose row labels are the values of the key columns. *)
Record IndexedFrame :=
  { ix_names : list string; ix_labels : list (row V); ix_frame : Frame }.

(** [df.set_index(keys)]: the key columns leave the frame and label the rows. *)
Definition set_index (keys : list string) (df : Frame) : IndexedFrame :=
  {| ix_names := keys;
     ix_labels := map (project (columns df) keys) (data df);
     ix_frame := select (filter (fun c => c ∉ keys) (columns df)) df |}.

(** [len(df)] on an indexed frame *)
Definition ix_len (df : IndexedFrame) : Z := Z.of_nat (length (ix_labels df)).

(** [df[col]] on an indexed frame *)
Definition ix_getitem (df : IndexedFrame) (c : string) : Series (cell V) :=
  {| s_index := map KeyLabel (ix_labels df);
     s_values := map (fun r => cell_at (columns (ix_frame df)) r c)
                     (data (ix_frame df)) |}.

(** [df.reset_index()]: the labels come back as the leading columns. *)
Definition reset_index (df : IndexedFrame) : Frame :=
  {| columns := ix_names df ++ columns (ix_frame df);
     data := zip_with app (ix_labels df) (data (ix_frame df)) |}.

End Frames.

Arguments Frame V : clear implicits.
Arguments DataFrame V : clear implicits.
Arguments IndexedFrame V : clear implicits.
Arguments Series V A : clear implicits.
Arguments s_index {V A} _.
Arguments s_values {V A} _.

(** *** Outer merge *)

Inductive indicator : Type := left_only | right_only | both.

#[global] Instance indicator_eq_dec : EqDecision indicator.
Proof. solve_decision. Defined.

Section Merge.
Context {V : Type} `{!EqDecision V}.

(** The result of [left.merge(right, on=..., how='outer', suffixes=...,
    indicator=True)]: the column names (['_merge'] last) and, for every
    row, the value of ['_merge'] and the cells of the other columns. *)
Record Merged := { m_columns : list string; m_rows : list (indicator * row V) }.

(** A column the other side has too receives the suffix. *)
Definition suffixed (others : list string) (sfx c : string) : string :=
  if bool_decide (c ∈ others) then c +:+ sfx else c.

(** Rows are paired when they agree on the key columns (missing keys match
    each other); unpaired rows are filled with missing cells.  pandas
    orders the rows of the result by key, which no caller here observes. *)
Definition merge_outer (left right : Frame V) (on : list string)
    (lsfx rsfx : string) : Merged :=
  let lrest := filter (fun c => c ∉ on) (columns left) in
  let rrest := filter (fun c => c ∉ on) (columns right) in
  let key_l := project (columns left) on in
  let key_r := project (columns right) on in
  let rows_both :=
    l ← data left;
    r ← filter (fun r => key_r r = key_l l) (data right);
    [(both, key_l l ++ project (columns left) lrest l
                    ++ project (columns right) rrest r)] in
  let rows_left :=
    (fun l => (left_only, key_l l ++ project (columns left) lrest l
                                  ++ replicate (length rrest) None))
      <$> filter (fun l => key_l l ∉ key_r <$> data right) (data left) in
  let rows_right :=
    (fun r => (right_only, key_r r ++ replicate (length lrest) None
                                   ++ project (columns right) rrest r))
      <$> filter (fun r => key_r r ∉ key_l <$> data left) (data right) in
  {| m_columns := on ++ (suffixed rrest lsfx <$> lrest)
                     ++ (suffixed lrest rsfx <$> rrest) ++ ["_merge"];
     m_rows := rows_both ++ rows_left ++ rows_right |}.

(** [result['_merge'] == 'both'] *)
Definition both_mask (m : Merged) : list bool :=
  map (fun x => bool_decide (x.1 = both)) (m_rows m).

(** [result.loc[mask, col]]: the selected rows keep their labels. *)
Definition loc (m : Merged) (mask : list bool) (c : string) : Series V (cell V) :=
  let picked :=
    filter (fun x => x.2.1 = true) (imap (fun i x => (i, x)) (zip mask (m_rows m))) in
  {| s_index := map (fun x => RangeLabel x.1) picked;
     s_values := map (fun x => cell_at (m_columns m) x.2.2.2 c) picked |}.

End Merge.

Arguments Merged V : clear implicits.

(** ** The comparator *)

Module TypeChange.
Record t := { previous : string; current : string }.
End TypeChange.

Record SchemaDiff := {
  added_columns : list string;
  removed_columns : list string;
  type_changes : gmap string TypeChange.t;
  total_columns_current : Z;
  total_columns_previous : Z
}.

Module RowCountChange.
Record t := { previous : Z; current : Z; difference : Z }.
End RowCountChange.

Record ChangeEntry (F : Type) := { changed_rows : Z; percentage : F }.
Arguments changed_rows {F} _.
Arguments percentage {F} _.

(** The dictionary [compare_values] returns; the short-circuit return has
    the first key only. *)
Record ValueDiff (F : Type) := {
  row_count_change : RowCountChange.t;
  percentage_row_change : option F;
  columns_with_value_changes : option (gmap string (ChangeEntry F))
}.
Arguments row_count_change {F} _.
Arguments percentage_row_change {F} _.
Arguments columns_with_value_changes {F} _.

Record Summary := {
  total_schema_issues : Z;
  summary_columns_with_value_changes : Z
}.

Record Statistics (F : Type) := {
  timestamp : string;
  schema_changes : SchemaDiff;
  value_changes : ValueDiff F;
  potential_regression : bool;
  summary : Summary
}.
Arguments timestamp {F} _.
Arguments schema_changes {F} _.
Arguments value_changes {F} _.
Arguments potential_regression {F} _.
Arguments summary {F} _.

Inductive df_origin : Type := origin_current | origin_previous.

#[global] Instance df_origin_eq_dec : EqDecision df_origin.
Proof. solve_decision. Defined.

Record DFComparator (V : Type) := {
  current : DataFrame V;
  previous : DataFrame V;
  primary_keys : list string
}.
Arguments current {V} _.
Arguments previous {V} _.
Arguments primary_keys {V} _.

Section Comparator.
Context {V : Type} `{!EqDecision V} {F : Type} `{!PyFloat F}.

(** [DFComparator.compare_schema] *)
Definition compare_schema (self : DFComparator V) : SchemaDiff :=
  let current_cols : gset string := list_to_set (columns (current self)) in
  let previous_cols : gset string := list_to_set (columns (previous self)) in
  let added_cols := current_cols ∖ previous_cols in
  let removed_cols := previous_cols ∖ current_cols in
  let common_cols := current_cols ∩ previous_cols in
  let type_changes :=
    foldl (fun (acc : gmap string TypeChange.t) col =>
             let curr_type := dtype_of (current self) col in
             let prev_type := dtype_of (previous self) col in
             if bool_decide (curr_type ≠ prev_type) then
               <[col := {| TypeChange.previous := prev_type;
                           TypeChange.current := curr_type |}]> acc
             else acc)
          ∅ (elements common_cols) in
  {| added_columns := elements added_cols;
     removed_columns := elements removed_cols;
     type_changes := type_changes;
     total_columns_current := Z.of_nat (length (columns (current self)));
     total_columns_previous := Z.of_nat (length (columns (previous self))) |}.

(** [round((n / d) * 100, 2) if d else 0.0], the expression behind every
    percentage of the report. *)
Definition percent (n d : Z) : F :=
  if bool_decide (d ≠ 0) then round_ndigits (fmul (truediv n d) 100) 2
  else float_zero.

(** Lines 91-96: the columns whose type change the classifier rejects. *)
Definition incompatible_type_cols (schema_diff : SchemaDiff) : gset string :=
  dom (filter (fun kv => _are_types_compatible (TypeChange.previous kv.2)
                                                (TypeChange.current kv.2) = false)
              (type_changes schema_diff)).

(** Line 98; Python reads [a & b - c] as [a & (b - c)]. *)
Definition common_cols (self : DFComparator V) (schema_diff : SchemaDiff)
    : list string :=
  elements ((list_to_set (columns (current self)) : gset string)
            ∩ (list_to_set (columns (previous self))
               ∖ incompatible_type_cols schema_diff)).

(** [df[common_cols + ['df_origin']]]: the rows of the selected columns,
    each with the provenance mark of its table. *)
Definition tagged (cols : list string) (o : df_origin) (df : Frame V)
    : list (row V * df_origin) :=
  map (fun r => (r, o)) (data (select cols df)).

(** Line 101: concatenate and drop every row met more than once,
    comparing the columns [cols] only. *)
Definition concat_drop_duplicates (cols : list string) (cur prev : Frame V)
    : list (row V * df_origin) :=
  drop_duplicates_keep_false (fun x => project cols cols x.1)
    (tagged cols origin_current cur ++ tagged cols origin_previous prev).

(** Lines 102-106: [result[result['df_origin'] == o]] without the mark. *)
Definition split_origin (cols : list string) (o : df_origin)
    (result : list (row V * df_origin)) : Frame V :=
  {| columns := cols; data := fst <$> filter (fun x => x.2 = o) result |}.

(** Lines 98-106: the unchanged-row filtering; the new [self.current] and
    [self.previous]. *)
Definition filter_unchanged (cols : list string) (cur prev : Frame V)
    : Frame V * Frame V :=
  let result := concat_drop_duplicates cols cur prev in
  (split_origin cols origin_current result,
   split_origin cols origin_previous result).

Definition change_entry (neq current_len : Z) : ChangeEntry F :=
  {| changed_rows := neq; percentage := percent neq current_len |}.

(** Lines 119-135: the loop of the fast path.  It returns the dictionary as
    the loop left it and the exception that interrupted it, if any. *)
Fixpoint fast_loop (cur prev : IndexedFrame V) (pks : list string)
    (current_len : Z) (cols : list string)
    (value_changes : gmap string (ChangeEntry F))
    : gmap string (ChangeEntry F) * option exn :=
  match cols with
  | [] => (value_changes, None)
  | col :: rest =>
      if bool_decide (col ∈ pks) then
        fast_loop cur prev pks current_len rest value_changes
      else
        match neq_count (ix_getitem cur col) (ix_getitem prev col) with
        | Raise e => (value_changes, Some e)
        | Ok neq =>
            fast_loop cur prev pks current_len rest
              (if bool_decide (0 < neq)
               then <[col := change_entry neq current_len]> value_changes
               else value_changes)
        end
  end.

(** Lines 144-156: the loop of the fallback; an exception here is not
    caught. *)
Fixpoint fallback_loop (result : Merged V) (current_len : Z)
    (cols : list string) (value_changes : gmap string (ChangeEntry F))
    : outcome (gmap string (ChangeEntry F)) :=
  match cols with
  | [] => Ok value_changes
  | col :: rest =>
      let lcol := col +:+ "_prev" in
      let rcol := col +:+ "_curr" in
      if bool_decide (lcol ∉ m_columns result) || bool_decide (rcol ∉ m_columns result)
      then fallback_loop result current_len rest value_changes
      else
        let s1 := loc result (both_mask result) lcol in
        let s2 := loc result (both_mask result) rcol in
        bind (neq_count s1 s2) (fun neq =>
          fallback_loop result current_len rest
            (if bool_decide (0 < neq)
             then <[col := change_entry neq current_len]> value_changes
             else value_changes))
  end.

(** The message of line 114. *)
Definition key_error_message (pk : string) : string :=
  "Primary key column '" +:+ pk +:+ "' not found in both dataframe".

(** Lines 159-167. [filtered_len] is [len(self.current)] at that point. *)
Definition full_diff (previous_len current_len filtered_len : Z)
    (value_changes : gmap string (ChangeEntry F)) : ValueDiff F :=
  let pct_change := percent filtered_len current_len in
  {| row_count_change :=
       {| RowCountChange.previous := previous_len;
          RowCountChange.current := current_len;
          RowCountChange.difference := current_len - previous_len |};
     percentage_row_change := Some pct_change;
     columns_with_value_changes := Some value_changes |}.

(** [DFComparator.compare_values].  The method rebinds [self.current] and
    [self.previous] as it goes; the successive values are the local
    [current] and [previous] below.  (Lines 99-100 also leave the column
    ['df_origin'] in the two tables of the caller, which nothing reads
    afterwards.) *)
Definition compare_values (self : DFComparator V) (schema_diff : SchemaDiff)
    : outcome (ValueDiff F) :=
  if bool_decide (len (current self) ≠ len (previous self)) then
    Ok {| row_count_change :=
            {| RowCountChange.previous := len (previous self);
               RowCountChange.current := len (current self);
               RowCountChange.difference :=
                 len (current self) - len (previous self) |};
          percentage_row_change := None;
          columns_with_value_changes := None |}
  else
    let current_len := len (current self) in
    let previous_len := len (previous self) in
    if bool_decide (current_len = 0) && bool_decide (previous_len = 0) then
      Ok {| row_count_change :=
              {| RowCountChange.previous := 0;
                 RowCountChange.current := 0;
                 RowCountChange.difference := 0 |};
            percentage_row_change := Some float_zero;
            columns_with_value_changes := Some ∅ |}
    else
      let common_cols := common_cols self schema_diff in
      let filtered := filter_unchanged common_cols (current self) (previous self) in
      let current := filtered.1 in
      let previous := filtered.2 in
      let value_changes : gmap string (ChangeEntry F) := ∅ in
      if bool_decide (primary_keys self ≠ []) then
        match list_find (fun pk => pk ∉ columns current) (primary_keys self) with
        | Some (_, pk) => Raise (KeyError (key_error_message pk))
        | None =>
            let current_ix := set_index (primary_keys self) current in
            let previous_ix := set_index (primary_keys self) previous in
            match fast_loop current_ix previous_ix (primary_keys self) current_len
                    (columns (ix_frame current_ix)) value_changes with
            | (value_changes, None) =>
                Ok (full_diff previous_len current_len (ix_len current_ix)
                      value_changes)
            | (value_changes, Some _) =>
                let previous := reset_index previous_ix in
                let current := reset_index current_ix in
                let result :=
                  merge_outer previous current (primary_keys self) "_prev" "_curr" in
                let cols_to_check :=
                  filter (fun c => c ∉ primary_keys self) (columns current) in
                bind (fallback_loop result current_len cols_to_check value_changes)
                  (fun value_changes =>
                     Ok (full_diff previous_len current_len (len current)
                           value_changes))
            end
        end
      else Ok (full_diff previous_len current_len (len current) value_changes).

(** Truth value of a Python list, of a dictionary, and of the result of
    [dict.get] on a key that may be absent. *)
Definition list_truthy {A : Type} (l : list A) : bool :=
  match l with [] => false | _ :: _ => true end.
Definition dict_truthy {A : Type} (m : gmap string A) : bool :=
  bool_decide (m ≠ ∅).
Definition get_truthy {A : Type} (o : option (gmap string A)) : bool :=
  match o with None => false | Some m => dict_truthy m end.

(** [DFComparator.generate_statistics]; [now] is
    [pd.Timestamp.now().isoformat()].  Every diff [compare_values] builds has
    the keys [row_count_change] and [difference], so the defaults of the two
    [get] of line 177 are never taken; the key [columns_with_value_changes]
    can be absent and [get] then gives [None]. *)
Definition generate_statistics (self : DFComparator V) (now : string)
    : outcome (Statistics F) :=
  let schema_diff := compare_schema self in
  bind (compare_values self schema_diff) (fun value_diff =>
    let has_regression :=
      list_truthy (removed_columns schema_diff)
      || dict_truthy (type_changes schema_diff)
      || bool_decide (RowCountChange.difference (row_count_change value_diff) < 0)
      || get_truthy (columns_with_value_changes value_diff) in
    Ok {| timestamp := now;
          schema_changes := schema_diff;
          value_changes := value_diff;
          potential_regression := has_regression;
          summary :=
            {| total_schema_issues :=
                 Z.of_nat (length (removed_columns schema_diff))
                 + Z.of_nat (size (type_changes schema_diff));
               summary_columns_with_value_changes :=
                 Z.of_nat (size (default ∅ (columns_with_value_changes value_diff))) |} |}).

End Comparator.

(** ** The constructor, and the comparator with the two tables exchanged *)


(** The same comparison read the other way round. *)
Definition exchanged {V : Type} (self : DFComparator V) : DFComparator V :=
  {| current := previous self;
     previous := current self;
     primary_keys := primary_keys self |}.

(** A type change read the other way round. *)
Definition mirrored (change : TypeChange.t) : TypeChange.t :=
  {| TypeChange.previous := TypeChange.current change;
     TypeChange.current := TypeChange.previous change |}.

(** ** Concrete tables *)

(** Float expressions left as written. *)
Inductive fexpr : Type :=
| FDiv (a b : Z)
| FMul (x : fexpr) (k : Z)
| FRound (x : fexpr) (ndigits : Z)
| FZero.

#[global] Instance fexpr_float : PyFloat fexpr :=
  {| truediv := FDiv; fmul := FMul; round_ndigits := FRound; float_zero := FZero |}.

Module Examples.

Definition table (cols tys : list string) (rows : list (list (option Z)))
    : DataFrame Z :=
  {| frame := {| columns := cols; data := rows |}; dtypes := tys |}.

(** The example of the specification: one value changes under key [id]. *)
Definition one_change : DFComparator Z :=
  {| current := table ["id"; "val"] ["int64"; "int64"]
                  [[Some 1; Some 11]; [Some 2; Some 20]];
     previous := table ["id"; "val"] ["int64"; "int64"]
                   [[Some 1; Some 10]; [Some 2; Some 20]];
     primary_keys := ["id"] |}.

(** One more row than before, and a key that is no column of either table. *)
Definition growth_without_key : DFComparator Z :=
  {| current := table ["id"; "a"] ["int64"; "int64"]
                  [[Some 1; Some 10]; [Some 2; Some 20]];
     previous := table ["id"; "a"] ["int64"; "int64"] [[Some 1; Some 10]];
     primary_keys := ["not_a_column"] |}.

(** Both tables empty, and a key that is no column of either table. *)
Definition empty_without_key : DFComparator Z :=
  {| current := table ["id"; "a"] ["object"; "object"] [];
     previous := table ["id"; "a"] ["object"; "object"] [];
     primary_keys := ["not_a_column"] |}.

(** [test_primary_key_missing_raises] *)
Definition missing_key : DFComparator Z :=
  {| current := table ["id"; "a"] ["int64"; "int64"] [[Some 1; Some 11]];
     previous := table ["id"; "a"] ["int64"; "int64"] [[Some 1; Some 10]];
     primary_keys := ["not_a_column"] |}.

(** The current table holds the same row twice; the previous table holds
    two other rows. *)
Definition repeated_row : DFComparator Z :=
  {| current := table ["id"; "val"] ["int64"; "int64"]
                  [[Some 1; Some 10]; [Some 1; Some 10]];
     previous := table ["id"; "val"] ["int64"; "int64"]
                   [[Some 2; Some 20]; [Some 3; Some 30]];
     primary_keys := [] |}.

(** The same rows in another order. *)
Definition reordered : DFComparator Z :=
  {| current := table ["id"; "val"] ["int64"; "int64"]
                  [[Some 2; Some 20]; [Some 1; Some 10]; [Some 3; None]];
     previous := table ["id"; "val"] ["int64"; "int64"]
                   [[Some 1; Some 10]; [Some 3; None]; [Some 2; Some 20]];
     primary_keys := ["id"] |}.

(** [test_duplicate_primary_keys_behavior] *)
Definition duplicate_keys : DFComparator Z :=
  {| current := table ["id"; "val"] ["int64"; "int64"]
                  [[Some 1; Some 10]; [Some 1; Some 20]];
     previous := table ["id"; "val"] ["int64"; "int64"]
                   [[Some 1; Some 10]; [Some 1; Some 10]];
     primary_keys := ["id"] |}.

(** A key that repeats on both sides with other values. *)
Definition duplicate_keys_changed : DFComparator Z :=
  {| current := table ["id"; "val"] ["int64"; "int64"]
                  [[Some 1; Some 11]; [Some 1; Some 21]; [Some 2; Some 5]];
     previous := table ["id"; "val"] ["int64"; "int64"]
                   [[Some 2; Some 6]; [Some 1; Some 11]; [Some 1; Some 20]];
     primary_keys := ["id"] |}.

(** [test_reordered_columns_no_change] *)
Definition reordered_columns : DFComparator Z :=
  {| current := table ["b"; "a"; "id"] ["int64"; "int64"; "int64"]
                  [[Some 3; Some 1; Some 1]; [Some 4; Some 2; Some 2]];
     previous := table ["id"; "a"; "b"] ["int64"; "int64"; "int64"]
                   [[Some 1; Some 1; Some 3]; [Some 2; Some 2; Some 4]];
     primary_keys := ["id"] |}.

(** [test_row_count_decrease_flags_regression] *)
Definition fewer_rows : DFComparator Z :=
  {| current := table ["id"; "a"] ["int64"; "int64"] [[Some 1; Some 10]];
     previous := table ["id"; "a"] ["int64"; "int64"]
                   [[Some 1; Some 10]; [Some 2; Some 20]];
     primary_keys := ["id"] |}.

End Examples.

(** ** Notions the statements are written in *)

(** [t] occurs in [s]. *)
Definition is_substring (t s : string) : Prop :=
  exists pre post : string, s = pre +:+ t +:+ post.

(** A type descriptor belongs to a family when its lowercase form contains
    one of the names of the family. *)
Definition in_family (family : list string) (dtype : string) : Prop :=
  exists t : string, t ∈ family /\ is_substring t (PyStr.lower dtype).

Section Notions.
Context {V : Type} `{!EqDecision V}.

(** A frame pandas can hold and the comparator can work on: the column names
    are distinct, every row has one cell per column, every column has a
    dtype, and no column bears a name the comparator adds itself
    (['df_origin'] on input, ['_merge'] in the merge). *)
Definition wf_frame (df : DataFrame V) : bool :=
  bool_decide (NoDup (columns df))
  && bool_decide (Forall (fun r : row V => length r = length (columns df)) (data df))
  && bool_decide (length (dtypes df) = length (columns df))
  && bool_decide ("df_origin" ∉ columns df)
  && bool_decide ("_merge" ∉ columns df).

(** The two tables are such frames, the declared key columns are distinct,
    and no key column bears the name the merge gives to a column of the
    current table (that name followed by [_prev] or [_curr]). *)
Definition wf_comparator (self : DFComparator V) : bool :=
  wf_frame (current self) && wf_frame (previous self)
  && bool_decide (NoDup (primary_keys self))
  && bool_decide (Forall (fun c => (c +:+ "_prev" ∉ primary_keys self)
                                   /\ (c +:+ "_curr" ∉ primary_keys self))
                         (columns (current self))).

(** Null-safe equality of two cells: [a == b], or both are missing. *)
Definition null_safe_equal (a b : cell V) : Prop :=
  cell_eq a b = true \/ (cell_isna a = true /\ cell_isna b = true).

#[global] Instance null_safe_equal_dec (a b : cell V) :
  Decision (null_safe_equal a b).
Proof. unfold null_safe_equal. apply _. Defined.

(** The cells of a frame under one column, top to bottom. *)
Definition column (df : Frame V) (c : string) : list (cell V) :=
  map (fun r => cell_at (columns df) r c) (data df).

(** Number of positions at which two frames differ under column [c], rows
    being paired by position. *)
Definition mismatches (cur prev : Frame V) (c : string) : Z :=
  Z.of_nat (length (filter (fun ab => ~ null_safe_equal ab.1 ab.2)
                           (zip (column cur c) (column prev c)))).

(** Number of pairs made of a row of [prev] and a row of [cur] with the same
    key that differ under column [c]. *)
Definition pair_mismatches (keys : list string) (prev cur : Frame V) (c : string)
    : Z :=
  Z.of_nat (length (filter
    (fun pc : row V * row V =>
       project (columns cur) keys pc.2 = project (columns prev) keys pc.1
       /\ ~ null_safe_equal (cell_at (columns prev) pc.1 c)
                            (cell_at (columns cur) pc.2 c))
    (p ← data prev; c' ← data cur; [(p, c')]))).

End Notions.

(** * Properties *)

(** Closes a decidable goal about concrete data. *)
Ltac by_compute :=
  match goal with
  | |- ?P => apply (@bool_decide_unpack P _); vm_compute; exact I
  end.

(** ** Lists *)

Lemma foldl_unchanged {A B : Type} (f : A -> B -> A) (l : list B) (acc : A) :
  (forall a x, x ∈ l -> f a x = a) -> foldl f acc l = acc.
Proof.
  revert acc. induction l as [|x l IH]; intros acc Hf; [done|]. simpl.
  rewrite Hf by left. apply IH. intros a y Hy. apply Hf. by right.
Qed.

Lemma filter_all {A : Type} (P : A -> Prop) `{!forall x, Decision (P x)} (l : list A) :
  (forall x, x ∈ l -> P x) -> filter P l = l.
Proof.
  induction l as [|x l IH]; intros HP; [done|].
  rewrite filter_cons, decide_True by (apply HP; left).
  rewrite IH; [done|]. intros y Hy. apply HP. by right.
Qed.

Lemma filter_none {A : Type} (P : A -> Prop) `{!forall x, Decision (P x)} (l : list A) :
  (forall x, x ∈ l -> ~ P x) -> filter P l = [].
Proof.
  induction l as [|x l IH]; intros HP; [done|].
  rewrite filter_cons, decide_False by (apply HP; left).
  apply IH. intros y Hy. apply HP. by right.
Qed.

Lemma filter_ext_in {A : Type} (P Q : A -> Prop)
    `{!forall x, Decision (P x), !forall x, Decision (Q x)} (l : list A) :
  (forall x, x ∈ l -> P x <-> Q x) -> filter P l = filter Q l.
Proof.
  induction l as [|x l IH]; intros Hext; [done|].
  rewrite !filter_cons.
  assert (Hl : forall y, y ∈ l -> P y <-> Q y) by (intros y Hy; apply Hext; by right).
  rewrite (IH Hl). pose proof (Hext x ltac:(left)) as Hx.
  destruct (decide (P x)), (decide (Q x)); tauto.
Qed.

Lemma length_filter_ext {A : Type} (P Q : A -> Prop)
    `{!forall x, Decision (P x), !forall x, Decision (Q x)} (l : list A) :
  (forall x, x ∈ l -> P x <-> Q x) ->
  length (filter P l) = length (filter Q l).
Proof. intros Hext. by rewrite (filter_ext_in P Q l Hext). Qed.

Lemma length_filter_fmap {A B : Type} (P : B -> Prop) `{!forall x, Decision (P x)}
    (g : A -> B) (l : list A) :
  length (filter P (map g l)) = length (filter (fun x => P (g x)) l).
Proof.
  induction l as [|x l IH]; [done|]. simpl. rewrite !filter_cons.
  destruct (decide (P (g x))); simpl; by rewrite IH.
Qed.

Lemma zip_with_fmap_diag {A B C D : Type} (f : B -> C -> D) (g : A -> B) (h : A -> C)
    (l : list A) :
  zip_with f (map g l) (map h l) = map (fun x => f (g x) (h x)) l.
Proof. induction l as [|x l IH]; [done|]. simpl. by rewrite IH. Qed.

Lemma filter_tagged {A T : Type} (Q : A * T -> Prop) `{!forall x, Decision (Q x)}
    (o : T) (l : list A) :
  fst <$> filter Q (map (fun r => (r, o)) l) = filter (fun r => Q (r, o)) l.
Proof.
  induction l as [|r l IH]; [done|]. cbn [map]. rewrite !filter_cons.
  destruct (decide (Q (r, o))); csimpl; by rewrite IH.
Qed.

Lemma picked_count {A : Type} (P : A -> Prop) `{!forall x, Decision (P x)}
    (mask : A -> bool) (h : nat -> nat) (rows : list A) :
  length (filter (fun x : nat * (bool * A) => P x.2.2)
            (filter (fun x : nat * (bool * A) => x.2.1 = true)
               (imap (fun i x => (h i, x)) (zip (map mask rows) rows))))
  = length (filter (fun y => mask y = true /\ P y) rows).
Proof.
  revert h. induction rows as [|y rows IH]; intros h; [done|].
  cbn [map zip_with]. rewrite imap_cons, !filter_cons. cbn [fst snd].
  specialize (IH (h ∘ S)).
  destruct (decide (mask y = true)), (decide (P y)).
  - rewrite filter_cons, !decide_True by done. simpl. f_equal. exact IH.
  - rewrite filter_cons, !decide_False by tauto. exact IH.
  - rewrite decide_False by tauto. exact IH.
  - rewrite decide_False by tauto. exact IH.
Qed.

Lemma length_filter_joined {A B A' B' R : Type}
    (fa : A -> A') (fb : B -> B') (M : A' -> B' -> Prop)
    `{!forall a b, Decision (M a b)} (mk : A' -> B' -> R)
    (Q : R -> Prop) `{!forall x, Decision (Q x)}
    (Q' : A * B -> Prop) `{!forall ab, Decision (Q' ab)}
    (la : list A) (lb : list B) :
  (forall a b, M (fa a) (fb b) /\ Q (mk (fa a) (fb b)) <-> Q' (a, b)) ->
  length (filter Q (a' ← map fa la; b' ← filter (M a') (map fb lb); [mk a' b']))
  = length (filter Q' (a ← la; b ← lb; [(a, b)])).
Proof.
  intros Hiff. induction la as [|a la IH]; [done|].
  cbn [map]. rewrite !bind_cons, !filter_app, !length_app, IH. f_equal.
  clear IH. induction lb as [|b lb IH]; [done|].
  cbn [map]. rewrite filter_cons, (bind_cons _ b lb), filter_app, length_app, <- IH.
  specialize (Hiff a b).
  destruct (decide (M (fa a) (fb b))).
  - rewrite bind_cons, filter_app, length_app. f_equal.
    rewrite !filter_cons, !filter_nil.
    destruct (decide (Q (mk (fa a) (fb b)))), (decide (Q' (a, b))); simpl; tauto.
  - rewrite filter_cons, filter_nil, decide_False by tauto. done.
Qed.

Lemma occurrences_app {A K : Type} `{!EqDecision K} (key : A -> K) k (l1 l2 : list A) :
  occurrences key k (l1 ++ l2) = (occurrences key k l1 + occurrences key k l2)%nat.
Proof. unfold occurrences. by rewrite filter_app, length_app. Qed.

Lemma occurrences_map {A B K : Type} `{!EqDecision K} (key : B -> K) (g : A -> B) k
    (l : list A) :
  occurrences key k (map g l) = occurrences (fun x => key (g x)) k l.
Proof.
  unfold occurrences. induction l as [|x l IH]; [done|]. simpl.
  rewrite !filter_cons. destruct (decide (key (g x) = k)); simpl; by rewrite IH.
Qed.

Lemma occurrences_ext {A K : Type} `{!EqDecision K} (key key' : A -> K) k (l : list A) :
  (forall x, x ∈ l -> key x = key' x) ->
  occurrences key k l = occurrences key' k l.
Proof.
  unfold occurrences. induction l as [|x l IH]; intros Hext; [done|].
  rewrite !filter_cons, (Hext x) by left.
  destruct (decide (key' x = k)); simpl; rewrite IH; try done;
    intros y Hy; apply Hext; by right.
Qed.

Lemma occurrences_zero {A K : Type} `{!EqDecision K} (key : A -> K) k (l : list A) :
  occurrences key k l = 0%nat <-> k ∉ map key l.
Proof.
  unfold occurrences. induction l as [|x l IH]; simpl.
  - split; [intros _; apply not_elem_of_nil | done].
  - rewrite filter_cons, not_elem_of_cons.
    destruct (decide (key x = k)) as [->|Hne]; simpl.
    + split; [discriminate | intros []; done].
    + rewrite IH. split; [intros ?; split; [congruence|done] | by intros []].
Qed.

Lemma occurrences_id_zero {A : Type} `{!EqDecision A} (x : A) (l : list A) :
  occurrences id x l = 0%nat <-> x ∉ l.
Proof. rewrite occurrences_zero. by rewrite map_id. Qed.

Lemma occurrences_pos {A : Type} `{!EqDecision A} (x : A) (l : list A) :
  x ∈ l -> (0 < occurrences id x l)%nat.
Proof.
  intros Hx. destruct (occurrences id x l) eqn:Hocc; [|lia].
  apply occurrences_zero in Hocc. rewrite map_id in Hocc. done.
Qed.

(** ** Strings *)

Lemma append_nil (s : string) : "" +:+ s = s.
Proof. reflexivity. Qed.

Lemma append_cons (c : ascii) (s1 s2 : string) :
  String c s1 +:+ s2 = String c (s1 +:+ s2).
Proof. reflexivity. Qed.

Lemma length_append (s1 s2 : string) :
  String.length (s1 +:+ s2) = (String.length s1 + String.length s2)%nat.
Proof.
  induction s1 as [|a s1 IH]; [done|]. rewrite append_cons. simpl. by rewrite IH.
Qed.

Lemma append_suffix_inj (c1 c2 s s' : string) :
  String.length s = String.length s' -> c1 +:+ s = c2 +:+ s' -> c1 = c2 /\ s = s'.
Proof.
  intros Hlen. revert c2. induction c1 as [|a c1 IH]; intros [|b c2] Heq.
  - done.
  - rewrite append_nil in Heq. subst s. rewrite append_cons in Hlen. simpl in Hlen.
    rewrite length_append in Hlen. lia.
  - rewrite append_nil in Heq. subst s'. rewrite append_cons in Hlen. simpl in Hlen.
    rewrite length_append in Hlen. lia.
  - rewrite !append_cons in Heq. injection Heq as -> Heq.
    destruct (IH c2 Heq) as [-> ->]. done.
Qed.

#[local] Instance append_suffix_Inj (s : string) : Inj (=) (=) (fun c => c +:+ s).
Proof. intros c1 c2 Heq. by destruct (append_suffix_inj c1 c2 s s eq_refl Heq). Qed.

Lemma prev_curr_distinct (c1 c2 : string) : c1 +:+ "_prev" ≠ c2 +:+ "_curr".
Proof.
  intros Heq. by destruct (append_suffix_inj c1 c2 "_prev" "_curr" eq_refl Heq).
Qed.

Lemma prefix_spec (t s : string) :
  String.prefix t s = true <-> exists post : string, s = t +:+ post.
Proof.
  revert s. induction t as [|c t IH]; intros s.
  - split; [intros _; exists s; reflexivity | by destruct s].
  - destruct s as [|d s]; simpl.
    + split; [discriminate | intros [post Hpost]; discriminate].
    + setoid_rewrite append_cons.
      destruct (Ascii.ascii_dec c d) as [->|Hcd].
      * rewrite IH. split; intros [post Hpost]; exists post; congruence.
      * split; [discriminate | intros [post Hpost]; congruence].
Qed.

Lemma contains_spec (t s : string) :
  PyStr.contains t s = true <-> is_substring t s.
Proof.
  unfold is_substring. induction s as [|d s IH].
  - change (PyStr.contains t "") with (String.prefix t "" || false).
    rewrite orb_false_r, prefix_spec. split.
    + intros [post Hpost]. by exists "", post.
    + intros (pre & post & Heq). destruct pre as [|e pre].
      * by exists post.
      * rewrite append_cons in Heq. discriminate.
  - change (PyStr.contains t (String d s))
      with (String.prefix t (String d s) || PyStr.contains t s).
    rewrite orb_true_iff, prefix_spec, IH. split.
    + intros [[post Hpost] | (pre & post & Heq)].
      * by exists "", post.
      * exists (String d pre), post. rewrite append_cons. by rewrite Heq.
    + intros (pre & post & Heq). destruct pre as [|e pre].
      * left. by exists post.
      * right. exists pre, post. rewrite append_cons in Heq. congruence.
Qed.


(** ** The classifier *)

Example compat_int_float : _are_types_compatible "int64" "Float64" = true.
Proof. reflexivity. Qed.

Example compat_int_object : _are_types_compatible "int64" "object" = false.
Proof. reflexivity. Qed.

Example compat_category : _are_types_compatible "category" "Category" = true.
Proof. reflexivity. Qed.

Lemma any_in_spec (family : list string) (dtype : string) :
  PyStr.any_in family (PyStr.lower dtype) = true <-> in_family family dtype.
Proof.
  unfold PyStr.any_in, in_family. rewrite existsb_exists.
  split; intros (t & Ht & Hsub); exists t.
  - by rewrite list_elem_of_In, <- contains_spec.
  - by rewrite <- list_elem_of_In, contains_spec.
Qed.

(** C4. Two type descriptors are compatible exactly when, after lowercasing,
    both contain a numeric name (int, uint, float, bool), or both contain a
    textual name (object, string, str), or both contain a temporal name
    (datetime, datetime64, timestamp), or the two lowercase descriptors are
    the same string.  The families are tried in that order; the answer is a
    function of the two strings alone. *)
Theorem are_types_compatible_families (dtype1 dtype2 : string) :
  _are_types_compatible dtype1 dtype2 = true <->
    (in_family numeric_types dtype1 /\ in_family numeric_types dtype2)
    \/ (in_family string_types dtype1 /\ in_family string_types dtype2)
    \/ (in_family datetime_types dtype1 /\ in_family datetime_types dtype2)
    \/ PyStr.lower dtype1 = PyStr.lower dtype2.
Proof.
  rewrite <- !any_in_spec. unfold _are_types_compatible.
  destruct (PyStr.any_in numeric_types (PyStr.lower dtype1)),
           (PyStr.any_in numeric_types (PyStr.lower dtype2)),
           (PyStr.any_in string_types (PyStr.lower dtype1)),
           (PyStr.any_in string_types (PyStr.lower dtype2)),
           (PyStr.any_in datetime_types (PyStr.lower dtype1)),
           (PyStr.any_in datetime_types (PyStr.lower dtype2));
    simpl; try (split; [intros _|done]; tauto);
    case_bool_decide; split; intros; try tauto; try discriminate; intuition discriminate.
Qed.

(** ** The guards of [compare_values] and the regression flag *)

Section Guards.
Context {V : Type} `{!EqDecision V} {F : Type} `{!PyFloat F}.
Implicit Types (self : DFComparator V) (schema_diff : SchemaDiff).

Lemma list_truthy_spec {A : Type} (l : list A) : list_truthy l = true <-> l ≠ [].
Proof. destruct l; simpl; split; congruence. Qed.

Lemma dict_truthy_spec {A : Type} (m : gmap string A) :
  dict_truthy m = true <-> m ≠ ∅.
Proof. unfold dict_truthy. apply bool_decide_eq_true. Qed.

Lemma get_truthy_spec {A : Type} (o : option (gmap string A)) :
  get_truthy o = true <-> exists m, o = Some m /\ m ≠ ∅.
Proof.
  destruct o as [m|]; simpl.
  - rewrite dict_truthy_spec. split; [eauto | intros (? & [= <-] & ?); done].
  - split; [discriminate | intros (? & [=] & _)].
Qed.

(** C7. When the two row counts differ, [compare_values] returns at once:
    the result has the key [row_count_change] alone, with [previous] and
    [current] the two lengths and [difference] the current length minus
    the previous one; nothing is computed per column and nothing is
    raised. *)
Theorem compare_values_row_count_mismatch self schema_diff :
  len (current self) ≠ len (previous self) ->
  compare_values (F:=F) self schema_diff =
    Ok {| row_count_change :=
            {| RowCountChange.previous := len (previous self);
               RowCountChange.current := len (current self);
               RowCountChange.difference :=
                 len (current self) - len (previous self) |};
          percentage_row_change := None;
          columns_with_value_changes := None |}.
Proof.
  intros Hlen. unfold compare_values. by rewrite bool_decide_eq_true_2.
Qed.

Lemma compare_values_both_empty self schema_diff :
  len (current self) = 0 -> len (previous self) = 0 ->
  compare_values (F:=F) self schema_diff =
    Ok {| row_count_change :=
            {| RowCountChange.previous := 0;
               RowCountChange.current := 0;
               RowCountChange.difference := 0 |};
          percentage_row_change := Some float_zero;
          columns_with_value_changes := Some ∅ |}.
Proof.
  intros Hc Hp. unfold compare_values.
  rewrite bool_decide_eq_false_2 by (rewrite Hc, Hp; tauto).
  rewrite Hc, Hp. reflexivity.
Qed.

(** C10. The declared primary key is looked at only after the two guards:
    when the row counts differ, or when both tables are empty,
    [compare_values] returns a diff and [generate_statistics] a report,
    whatever the declared key columns are, in particular when none of them
    is a column of either table. *)
Theorem compare_values_guards_precede_key_check self schema_diff now :
  len (current self) ≠ len (previous self)
  \/ (len (current self) = 0 /\ len (previous self) = 0) ->
  (exists value_diff, compare_values (F:=F) self schema_diff = Ok value_diff)
  /\ (exists stats, generate_statistics (F:=F) self now = Ok stats).
Proof.
  intros Hguard.
  assert (Hok : forall sd, exists value_diff,
             compare_values (F:=F) self sd = Ok value_diff).
  { intros sd. destruct Hguard as [Hne | [Hc Hp]].
    - eexists. unfold compare_values. by rewrite bool_decide_eq_true_2.
    - eexists. by apply compare_values_both_empty. }
  split; [apply Hok|].
  unfold generate_statistics.
  destruct (Hok (compare_schema self)) as [value_diff ->]. simpl. eauto.
Qed.

Lemma compare_values_difference self schema_diff value_diff :
  compare_values (F:=F) self schema_diff = Ok value_diff ->
  RowCountChange.difference (row_count_change value_diff)
  = len (current self) - len (previous self).
Proof.
  unfold compare_values. case_bool_decide as Hne; [by intros [= <-]|].
  destruct (bool_decide (len (current self) = 0) && bool_decide (len (previous self) = 0))
    eqn:Hboth.
  { apply andb_true_iff in Hboth as [Hc Hp].
    apply bool_decide_eq_true in Hc, Hp. intros [= <-]. simpl. lia. }
  cbv zeta. repeat case_match; try discriminate; try by intros [= <-].
  destruct (fallback_loop _ _ _ _); simpl; [by intros [= <-]|discriminate].
Qed.

(** C3. The flag [potential_regression] of a report is true exactly when
    [removed_columns] is not empty, or [type_changes] is not empty
    (compatible changes included), or the row-count difference (current
    minus previous) is negative, or [columns_with_value_changes] is present
    and not empty.  When the current table has more rows than the previous
    one and no column was removed and no type changed, the report is
    produced and its flag is false (the value diff then has no per-column
    entry at all). *)
Theorem potential_regression_spec self now :
  (forall stats, generate_statistics (F:=F) self now = Ok stats ->
     schema_changes stats = compare_schema self
     /\ RowCountChange.difference (row_count_change (value_changes stats))
        = len (current self) - len (previous self)
     /\ (potential_regression stats = true <->
           removed_columns (schema_changes stats) ≠ []
           \/ type_changes (schema_changes stats) ≠ ∅
           \/ len (current self) - len (previous self) < 0
           \/ exists m, columns_with_value_changes (value_changes stats) = Some m
                        /\ m ≠ ∅))
  /\ (len (previous self) < len (current self) ->
      removed_columns (compare_schema self) = [] ->
      type_changes (compare_schema self) = ∅ ->
      exists stats, generate_statistics (F:=F) self now = Ok stats
                    /\ potential_regression stats = false).
Proof.
  split.
  - intros stats. unfold generate_statistics.
    destruct (compare_values self (compare_schema self)) as [value_diff|e] eqn:Hdiff;
      simpl; [|discriminate].
    apply compare_values_difference in Hdiff.
    intros [= <-]. cbn [schema_changes value_changes potential_regression].
    split; [done|]. split; [done|].
    rewrite !orb_true_iff, list_truthy_spec, dict_truthy_spec,
      bool_decide_eq_true, get_truthy_spec, Hdiff. tauto.
  - intros Hlt Hremoved Htypes. unfold generate_statistics.
    unfold compare_values. rewrite bool_decide_eq_true_2 by lia. cbn [bind].
    eexists. split; [reflexivity|].
    cbn [potential_regression row_count_change columns_with_value_changes
         RowCountChange.difference get_truthy].
    rewrite Hremoved, Htypes. unfold dict_truthy.
    rewrite (bool_decide_eq_false_2 (_ ≠ _)) by (intros Hne; by apply Hne).
    rewrite (bool_decide_eq_false_2 (_ < _)) by lia. reflexivity.
Qed.

End Guards.

(** ** Frames: selection and the removal of duplicates *)

Section FrameFacts.
Context {V : Type} `{!EqDecision V}.
Implicit Types (r : row V) (cols on : list string) (c : string).

Lemma col_index_lookup cols c i : col_index cols c = Some i -> cols !! i = Some c.
Proof.
  unfold col_index. destruct (list_find _ cols) as [[j x]|] eqn:Hfind; [|done].
  intros [= <-]. apply list_find_Some in Hfind as (Hj & -> & _). done.
Qed.

Lemma col_index_elem cols c : c ∈ cols -> exists i, col_index cols c = Some i.
Proof.
  intros Hc. unfold col_index.
  destruct (list_find_elem_of (fun x => x = c) cols c Hc eq_refl) as [[i x] ->].
  by exists i.
Qed.

(** A cell read back from a row that was built column by column. *)
Lemma cell_at_map (f : string -> cell V) on (t : row V) c :
  c ∈ on -> cell_at on (map f on ++ t) c = f c.
Proof.
  intros Hc. unfold cell_at.
  destruct (col_index_elem on c Hc) as [i Hi]. rewrite Hi.
  apply col_index_lookup in Hi.
  rewrite lookup_app_l by (rewrite length_map; by eapply lookup_lt_Some).
  by rewrite list_lookup_fmap, Hi.
Qed.

Lemma cell_at_project cols on r c :
  c ∈ on -> cell_at on (project cols on r) c = cell_at cols r c.
Proof.
  intros Hc. unfold project.
  rewrite <- (app_nil_r (map _ on)). by apply cell_at_map.
Qed.

Lemma project_project cols on sub r :
  sub ⊆ on -> project on sub (project cols on r) = project cols sub r.
Proof.
  intros Hsub. unfold project at 1 3. apply map_ext_in.
  intros c Hc. apply cell_at_project, Hsub. by apply list_elem_of_In.
Qed.

Lemma fmap_KeyLabel_inj (l1 l2 : list (row V)) :
  map KeyLabel l1 = map KeyLabel l2 -> l1 = l2.
Proof.
  revert l2. induction l1 as [|x l1 IH]; intros [|y l2]; simpl; try done.
  intros [= -> Heq]. f_equal. by apply IH.
Qed.

End FrameFacts.

Section Filtering.
Context {V : Type} `{!EqDecision V}.
Implicit Types (r : row V) (cols : list string) (cur prev : Frame V).

Lemma project_selected cols (df : Frame V) r :
  r ∈ data (select cols df) -> project cols cols r = r.
Proof.
  unfold select. simpl. intros Hr. apply list_elem_of_fmap in Hr as (r0 & -> & _).
  by apply (project_project (columns df) cols cols r0).
Qed.

Lemma elem_of_tagged cols o o' (df : Frame V) r :
  (r, o') ∈ tagged cols o df <-> o' = o /\ r ∈ data (select cols df).
Proof.
  unfold tagged. rewrite list_elem_of_fmap. split.
  - intros (r0 & [= -> ->] & Hr0). done.
  - intros [-> Hr]. by exists r.
Qed.

Lemma occurrences_tagged cols o (df : Frame V) r :
  occurrences (fun x : row V * df_origin => project cols cols x.1) r (tagged cols o df)
  = occurrences id r (data (select cols df)).
Proof.
  unfold tagged. rewrite occurrences_map. apply occurrences_ext.
  intros r0 Hr0. simpl. by apply (project_selected cols df).
Qed.

(** What is left of one side: the rows met once in the two tables together. *)
Lemma elem_of_split_origin cols cur prev o r :
  r ∈ data (split_origin cols o (concat_drop_duplicates cols cur prev)) <->
    r ∈ data (select cols (match o with
                           | origin_current => cur
                           | origin_previous => prev
                           end))
    /\ (occurrences id r (data (select cols cur))
        + occurrences id r (data (select cols prev)) = 1)%nat.
Proof.
  unfold split_origin, concat_drop_duplicates, drop_duplicates_keep_false. simpl.
  rewrite list_elem_of_fmap. split.
  - intros ([r0 o0] & -> & Hx). simpl.
    apply list_elem_of_filter in Hx as [Ho Hx]. simpl in Ho. subst o0.
    apply list_elem_of_filter in Hx as [Hocc Hx]. simpl in Hocc.
    rewrite occurrences_app, !occurrences_tagged in Hocc.
    apply elem_of_app in Hx as [Hx|Hx];
      apply elem_of_tagged in Hx as [-> Hx];
      rewrite (project_selected _ _ _ Hx) in Hocc; done.
  - intros [Hr Hocc]. exists (r, o). split; [done|].
    assert (Hkey : project cols cols r = r)
      by exact (project_selected _ _ _ Hr).
    apply list_elem_of_filter. split; [done|].
    apply list_elem_of_filter. split.
    + simpl. by rewrite Hkey, occurrences_app, !occurrences_tagged.
    + apply elem_of_app. destruct o; [left|right]; by apply elem_of_tagged.
Qed.

(** One side of the result of the filtering, as a list. *)
Lemma split_origin_data cols cur prev o :
  let rows_of o' := data (select cols (match o' with
                                       | origin_current => cur
                                       | origin_previous => prev
                                       end)) in
  data (split_origin cols o (concat_drop_duplicates cols cur prev))
  = filter (fun r => (occurrences id r (rows_of origin_current)
                      + occurrences id r (rows_of origin_previous) = 1)%nat)
           (rows_of o).
Proof.
  intros rows_of. unfold split_origin, concat_drop_duplicates, drop_duplicates_keep_false.
  cbn [data]. rewrite list_filter_filter.
  set (L := tagged cols origin_current cur ++ tagged cols origin_previous prev).
  assert (Hocc : forall r o', r ∈ rows_of o' ->
            occurrences (fun x : row V * df_origin => project cols cols x.1)
              (project cols cols r) L
            = (occurrences id r (rows_of origin_current)
               + occurrences id r (rows_of origin_previous))%nat).
  { intros r o' Hr. subst L.
    rewrite occurrences_app, !occurrences_tagged.
    by rewrite (project_selected cols _ r Hr). }
  assert (Htagged : forall (Q : row V * df_origin -> Prop)
                      `{!forall x, Decision (Q x)} o' df,
            (filter Q (tagged cols o' df)).*1
            = filter (fun r => Q (r, o')) (data (select cols df)))
    by (intros; apply filter_tagged).
  subst L. rewrite filter_app, fmap_app, !Htagged. cbn [fst snd].
  destruct o.
  - rewrite (filter_none _ (data (select cols prev))) by (by intros r _ [? _]).
    rewrite app_nil_r. apply filter_ext_in. intros r Hr.
    rewrite (Hocc r origin_current Hr). tauto.
  - rewrite (filter_none _ (data (select cols cur))) by (by intros r _ [? _]).
    rewrite app_nil_l. apply filter_ext_in. intros r Hr.
    rewrite (Hocc r origin_previous Hr). tauto.
Qed.

End Filtering.

(** ** The main path of [compare_values] *)

Section MainPath.
Context {V : Type} `{!EqDecision V} {F : Type} `{!PyFloat F}.
Implicit Types (self : DFComparator V) (schema_diff : SchemaDiff) (r : row V).

Lemma elem_of_common_cols self schema_diff c :
  c ∈ common_cols self schema_diff <->
    c ∈ columns (current self) /\ c ∈ columns (previous self)
    /\ c ∉ incompatible_type_cols schema_diff.
Proof.
  unfold common_cols.
  rewrite elem_of_elements, elem_of_intersection, elem_of_difference,
    !elem_of_list_to_set. tauto.
Qed.

Lemma len_ix_set_index (keys : list string) (df : Frame V) :
  ix_len (set_index keys df) = len df.
Proof. unfold ix_len, len. simpl. by rewrite length_map. Qed.

Lemma len_reset_set_index (keys : list string) (df : Frame V) :
  len (reset_index (set_index keys df)) = len df.
Proof.
  unfold len, reset_index, set_index, select. simpl.
  rewrite length_zip_with, !length_map. f_equal. lia.
Qed.

(** The steps of [compare_values] once both guards are passed. *)
Lemma compare_values_main self schema_diff :
  len (current self) = len (previous self) ->
  ~ (len (current self) = 0 /\ len (previous self) = 0) ->
  compare_values (F:=F) self schema_diff =
    let cols := common_cols self schema_diff in
    let filtered := filter_unchanged cols (current self) (previous self) in
    let pks := primary_keys self in
    let current_len := len (current self) in
    let previous_len := len (previous self) in
    if bool_decide (pks ≠ []) then
      match list_find (fun pk => pk ∉ cols) pks with
      | Some (_, pk) => Raise (KeyError (key_error_message pk))
      | None =>
          match fast_loop (set_index pks filtered.1) (set_index pks filtered.2) pks
                  current_len (filter (fun c => c ∉ pks) cols) ∅ with
          | (value_changes, None) =>
              Ok (full_diff previous_len current_len (len filtered.1) value_changes)
          | (value_changes, Some _) =>
              bind (fallback_loop
                      (merge_outer (reset_index (set_index pks filtered.2))
                                   (reset_index (set_index pks filtered.1))
                                   pks "_prev" "_curr")
                      current_len (filter (fun c => c ∉ pks) (pks ++ filter (fun c => c ∉ pks) cols))
                      value_changes)
                (fun value_changes =>
                   Ok (full_diff previous_len current_len (len filtered.1)
                         value_changes))
          end
      end
    else Ok (full_diff previous_len current_len (len filtered.1) ∅).
Proof.
  intros Hlen Hnonempty. unfold compare_values.
  rewrite bool_decide_eq_false_2 by (intros Hne; by apply Hne).
  destruct (bool_decide (len (current self) = 0) && bool_decide (len (previous self) = 0))
    eqn:Hboth.
  { apply andb_true_iff in Hboth as [Hc Hp].
    apply bool_decide_eq_true in Hc, Hp. tauto. }
  cbv zeta. rewrite len_ix_set_index, len_reset_set_index. reflexivity.
Qed.

(** C1 (amended). For well-formed tables with at least one compatible common
    column: after the unchanged-row filtering, the rows left on a side are,
    in their order, the rows of that side that occur once on that side and
    not at all on the other side, rows being compared over the compatible
    common columns.  A row is dropped when an identical row is on the other
    side, and also when it is repeated within its own side. *)
Theorem unchanged_row_filtering self schema_diff :
  let cols := common_cols self schema_diff in
  let cur_rows := data (select cols (current self)) in
  let prev_rows := data (select cols (previous self)) in
  let filtered := filter_unchanged cols (current self) (previous self) in
  wf_comparator self = true ->
  cols ≠ [] ->
  data filtered.1
  = filter (fun r => (occurrences id r cur_rows = 1)%nat /\ r ∉ prev_rows) cur_rows
  /\ data filtered.2
     = filter (fun r => (occurrences id r prev_rows = 1)%nat /\ r ∉ cur_rows) prev_rows.
Proof.
  intros cols cur_rows prev_rows filtered _ _. subst filtered.
  unfold filter_unchanged. cbn [fst snd]. rewrite !split_origin_data.
  fold cur_rows prev_rows.
  split; apply filter_ext_in; intros r Hr; apply occurrences_pos in Hr;
    rewrite <- occurrences_id_zero; lia.
Qed.

(** C2 (amended). For well-formed tables with at least one compatible common
    column: when the two tables have the same number of rows and are not
    both empty, and some declared key column is missing from a table,
    [compare_values] raises a [KeyError] whose message names the first
    declared key column that is not a compatible common column, and
    [generate_statistics] passes the error on; no diff is returned. *)
Theorem missing_key_raises self schema_diff now :
  wf_comparator self = true ->
  len (current self) = len (previous self) ->
  ~ (len (current self) = 0 /\ len (previous self) = 0) ->
  common_cols self schema_diff ≠ [] ->
  (exists pk, pk ∈ primary_keys self
              /\ (pk ∉ columns (current self) \/ pk ∉ columns (previous self))) ->
  exists (i : nat) (pk : string),
    primary_keys self !! i = Some pk
    /\ (pk ∉ common_cols self schema_diff)
    /\ (forall (j : nat) pk', primary_keys self !! j = Some pk' -> (j < i)%nat ->
          pk' ∈ common_cols self schema_diff)
    /\ compare_values (F:=F) self schema_diff = Raise (KeyError (key_error_message pk))
    /\ (schema_diff = compare_schema self ->
        generate_statistics (F:=F) self now = Raise (KeyError (key_error_message pk))).
Proof.
  intros _ Hlen Hnonempty _ (pk0 & Hpk0 & Habsent).
  assert (Hnot : pk0 ∉ common_cols self schema_diff).
  { rewrite elem_of_common_cols. tauto. }
  destruct (list_find_elem_of (fun pk => pk ∉ common_cols self schema_diff)
              (primary_keys self) pk0 Hpk0 Hnot) as [[i pk] Hfind].
  pose proof Hfind as (Hi & Hpk & Hfirst)%list_find_Some.
  assert (Hraise : compare_values (F:=F) self schema_diff
                   = Raise (KeyError (key_error_message pk))).
  { rewrite compare_values_main by done. cbv zeta.
    rewrite bool_decide_eq_true_2, Hfind; [done|].
    intros Hnil. rewrite Hnil in Hpk0. by apply not_elem_of_nil in Hpk0. }
  exists i, pk. repeat split; try done.
  - intros j pk' Hj Hlt. apply dec_stable. by apply (Hfirst j).
  - intros ->. unfold generate_statistics. by rewrite Hraise.
Qed.

(** C8. For well-formed tables with at least one compatible common column:
    when the row counts are equal and the tables are not both empty, the
    [percentage_row_change] of a returned diff is the number of current rows
    that survived the unchanged-row filtering, divided by the number of
    current rows before the filtering (not by the filtered count), times
    100, rounded to 2 decimals. *)
Theorem percentage_row_change_basis self schema_diff value_diff :
  wf_comparator self = true ->
  len (current self) = len (previous self) ->
  ~ (len (current self) = 0 /\ len (previous self) = 0) ->
  common_cols self schema_diff ≠ [] ->
  compare_values (F:=F) self schema_diff = Ok value_diff ->
  percentage_row_change value_diff =
    Some (round_ndigits
            (fmul (truediv
                     (len (filter_unchanged (common_cols self schema_diff)
                             (current self) (previous self)).1)
                     (len (current self)))
                  100)
            2).
Proof.
  intros _ Hlen Hnonempty _.
  assert (Hpct : forall n, percent (F:=F) n (len (current self))
                 = round_ndigits (fmul (truediv n (len (current self))) 100) 2).
  { intros n. unfold percent. rewrite bool_decide_eq_true_2; [done|].
    intros Hzero. apply Hnonempty. split; [done|]. by rewrite <- Hlen. }
  rewrite compare_values_main by done. cbv zeta.
  repeat (case_bool_decide || case_match || simplify_eq || simpl in * );
    intros; simplify_eq; simpl; try by rewrite Hpct.
  all: match goal with
       | H : bind ?m _ = Ok _ |- _ => destruct m; simpl in H; simplify_eq
       end; simpl; by rewrite Hpct.
Qed.

Lemma type_changes_same_dtypes self :
  columns (current self) = columns (previous self) ->
  dtypes (current self) = dtypes (previous self) ->
  type_changes (compare_schema self) = ∅.
Proof.
  intros Hcols Hdtypes. unfold compare_schema. cbn [type_changes].
  apply foldl_unchanged. intros acc col _.
  rewrite bool_decide_eq_false_2; [done|].
  intros Hne. apply Hne. unfold dtype_of. by rewrite Hcols, Hdtypes.
Qed.

Lemma incompatible_type_cols_empty schema_diff :
  type_changes schema_diff = ∅ -> incompatible_type_cols schema_diff = ∅.
Proof.
  intros Hempty. unfold incompatible_type_cols.
  by rewrite Hempty, map_filter_empty, dom_empty_L.
Qed.

(** Two tables with the same rows in any order leave nothing behind. *)
Lemma filter_unchanged_permutation (cols : list string) (cur prev : Frame V) :
  columns cur = columns prev ->
  data cur ≡ₚ data prev ->
  data (filter_unchanged cols cur prev).1 = []
  /\ data (filter_unchanged cols cur prev).2 = [].
Proof.
  intros Hcols Hperm.
  assert (Hrows : data (select cols cur) ≡ₚ data (select cols prev)).
  { unfold select. cbn [data]. rewrite Hcols. by apply fmap_Permutation. }
  unfold filter_unchanged. cbn [fst snd].
  split; apply elem_of_nil_inv; intros r Hr;
    apply elem_of_split_origin in Hr as [Hr Hocc];
    pose proof Hr as Hr'; [rewrite Hrows in Hr' | rewrite <- Hrows in Hr'];
    apply occurrences_pos in Hr, Hr'; lia.
Qed.

Lemma fast_loop_no_rows (cur prev : IndexedFrame V) (pks cols : list string)
    (current_len : Z) (value_changes : gmap string (ChangeEntry F)) :
  ix_labels cur = [] -> ix_labels prev = [] ->
  data (ix_frame cur) = [] ->
  fast_loop cur prev pks current_len cols value_changes = (value_changes, None).
Proof.
  intros Hcur Hprev Hdata. revert value_changes.
  induction cols as [|col cols IH]; intros value_changes; [done|]. simpl.
  case_bool_decide; [apply IH|].
  unfold neq_count, series_eq, ix_getitem. cbn [s_index s_values].
  rewrite Hcur, Hprev, Hdata. simpl. apply IH.
Qed.

(** C6. Two well-formed tables with the same columns (at least one) and
    dtypes and the same rows, in any order, compared under a key made of
    their columns: the value diff has a row-count difference of zero and an
    empty [columns_with_value_changes]. *)
Theorem reordered_rows_no_change self :
  wf_comparator self = true ->
  columns (current self) = columns (previous self) ->
  dtypes (current self) = dtypes (previous self) ->
  data (current self) ≡ₚ data (previous self) ->
  columns (current self) ≠ [] ->
  (forall pk, pk ∈ primary_keys self -> pk ∈ columns (current self)) ->
  exists value_diff,
    compare_values (F:=F) self (compare_schema self) = Ok value_diff
    /\ RowCountChange.difference (row_count_change value_diff) = 0
    /\ columns_with_value_changes value_diff = Some ∅.
Proof.
  intros _ Hcols Hdtypes Hperm _ Hkeys.
  assert (Hlen : len (current self) = len (previous self)).
  { unfold len. by rewrite Hperm. }
  destruct (decide (len (current self) = 0)) as [Hzero|Hpos].
  { eexists. split; [apply compare_values_both_empty; congruence|done]. }
  rewrite compare_values_main by tauto. cbv zeta.
  destruct (filter_unchanged_permutation
              (common_cols self (compare_schema self)) (current self) (previous self)
              Hcols Hperm) as [Hcur Hprev].
  assert (Hdiff : forall n (m : gmap string (ChangeEntry F)),
            RowCountChange.difference
              (row_count_change (full_diff (len (previous self)) (len (current self)) n m))
            = 0) by (intros; simpl; lia).
  case_bool_decide as Hpks; [|eexists; split; [done|]; split; [apply Hdiff|done]].
  destruct (list_find _ (primary_keys self)) as [[i pk]|] eqn:Hfind.
  { apply list_find_Some in Hfind as (Hi & Hpk & _). destruct Hpk.
    apply elem_of_common_cols.
    rewrite (incompatible_type_cols_empty _ (type_changes_same_dtypes self Hcols Hdtypes)).
    assert (pk ∈ columns (current self))
      by (apply Hkeys; by eapply list_elem_of_lookup_2).
    split; [done|]. split; [by rewrite <- Hcols | apply not_elem_of_empty]. }
  rewrite fast_loop_no_rows.
  - eexists. split; [done|]. split; [apply Hdiff|done].
  - unfold set_index. cbn [ix_labels]. by rewrite Hcur.
  - unfold set_index. cbn [ix_labels]. by rewrite Hprev.
  - unfold set_index, select. cbn [ix_frame data]. by rewrite Hcur.
Qed.

End MainPath.

(** ** The fast path *)

Section FastPath.
Context {V : Type} `{!EqDecision V} {F : Type} `{!PyFloat F}.
Implicit Types (self : DFComparator V) (schema_diff : SchemaDiff) (r : row V).

(** The mask [~((s1 == s2) | (s1.isna() & s2.isna()))] marks the positions
    where null-safe equality fails. *)
Lemma mask_sum (v1 v2 : list (cell V)) :
  length (filter (fun b : bool => b = true)
            (map negb (zip_with orb (zip_with cell_eq v1 v2)
                         (zip_with andb (map cell_isna v1) (map cell_isna v2)))))
  = length (filter (fun ab : cell V * cell V => ~ null_safe_equal ab.1 ab.2)
              (zip v1 v2)).
Proof.
  revert v2. induction v1 as [|a v1 IH]; intros [|b v2]; try done.
  specialize (IH v2). cbn [map zip_with]. rewrite !filter_cons. cbn [fst snd].
  assert (Hhead : negb (cell_eq a b || cell_isna a && cell_isna b) = true
                  <-> ~ null_safe_equal a b).
  { unfold null_safe_equal.
    destruct (cell_eq a b), (cell_isna a), (cell_isna b); simpl;
      (split; [try discriminate; intros _ [Hf|[Hf1 Hf2]]; discriminate
              | intros Hf; try reflexivity; exfalso; apply Hf; tauto]). }
  destruct (decide (negb (cell_eq a b || cell_isna a && cell_isna b) = true)),
           (decide (~ null_safe_equal a b)); simpl; rewrite ?IH; tauto.
Qed.

Lemma neq_count_aligned (s1 s2 : Series V (cell V)) :
  s_index s1 = s_index s2 ->
  neq_count s1 s2 =
    Ok (Z.of_nat (length (filter (fun ab : cell V * cell V => ~ null_safe_equal ab.1 ab.2)
                            (zip (s_values s1) (s_values s2))))).
Proof.
  intros Hindex. unfold neq_count, series_eq.
  rewrite bool_decide_eq_true_2 by done. simpl. unfold series_sum. simpl.
  by rewrite mask_sum.
Qed.

Lemma neq_count_misaligned (s1 s2 : Series V (cell V)) :
  s_index s1 ≠ s_index s2 ->
  neq_count s1 s2
  = Raise (ValueError "Can only compare identically-labeled Series objects").
Proof.
  intros Hindex. unfold neq_count, series_eq.
  by rewrite bool_decide_eq_false_2.
Qed.

(** A column of an indexed frame holds the cells the frame had under it. *)
Lemma ix_getitem_values (keys : list string) (df : Frame V) c :
  c ∈ columns df -> c ∉ keys ->
  s_values (ix_getitem (set_index keys df) c) = column df c.
Proof.
  intros Hc Hkey. unfold ix_getitem, set_index, select, column. cbn.
  rewrite map_map. apply map_ext. intros r.
  apply (cell_at_project (columns df)). apply list_elem_of_filter. done.
Qed.

Lemma ix_getitem_index (keys : list string) (df : Frame V) c :
  s_index (ix_getitem (set_index keys df) c) = map KeyLabel (ix_labels (set_index keys df)).
Proof. done. Qed.

(** The loop of the fast path on two frames with the same labels. *)
Lemma fast_loop_aligned (cur prev : Frame V) (pks cols : list string)
    (current_len : Z) (value_changes : gmap string (ChangeEntry F)) :
  ix_labels (set_index pks cur) = ix_labels (set_index pks prev) ->
  (forall c, c ∈ cols -> c ∈ columns cur /\ c ∈ columns prev) ->
  exists value_changes',
    fast_loop (set_index pks cur) (set_index pks prev) pks current_len cols value_changes
    = (value_changes', None)
    /\ forall c, value_changes' !! c =
         if decide (c ∈ cols /\ (c ∉ pks) /\ 0 < mismatches cur prev c)
         then Some (change_entry (mismatches cur prev c) current_len)
         else value_changes !! c.
Proof.
  intros Hlabels. revert value_changes.
  induction cols as [|col cols IH]; intros value_changes Hcols.
  { exists value_changes. split; [done|]. intros c.
    rewrite decide_False; [done|]. intros [Hc _]. by apply not_elem_of_nil in Hc. }
  assert (Hrest : forall c, c ∈ cols -> c ∈ columns cur /\ c ∈ columns prev)
    by (intros c Hc; apply Hcols; by right).
  cbn [fast_loop]. case_bool_decide as Hpk.
  { destruct (IH value_changes Hrest) as (vc' & -> & Hvc'). exists vc'.
    split; [done|]. intros c. rewrite Hvc'.
    destruct (decide (c = col)) as [->|Hne].
    - rewrite !decide_False; tauto.
    - apply decide_ext. rewrite elem_of_cons. tauto. }
  destruct (Hcols col ltac:(left)) as [Hcur Hprev].
  rewrite neq_count_aligned by (rewrite !ix_getitem_index; by rewrite Hlabels).
  rewrite !ix_getitem_values by done. fold (mismatches cur prev col).
  destruct (IH (if bool_decide (0 < mismatches cur prev col)
                then <[col:=change_entry (mismatches cur prev col) current_len]> value_changes
                else value_changes) Hrest) as (vc' & -> & Hvc').
  exists vc'. split; [done|]. intros c. rewrite Hvc'.
  destruct (decide (c ∈ cols /\ (c ∉ pks) /\ 0 < mismatches cur prev c)) as [Hin|Hout].
  { rewrite decide_True; [done|]. rewrite elem_of_cons. tauto. }
  destruct (decide (c = col)) as [->|Hne].
  - case_bool_decide as Hpos.
    + rewrite lookup_insert_eq, decide_True; [done|]. split; [by left|done].
    + rewrite decide_False; [done|]. tauto.
  - rewrite decide_False by (rewrite elem_of_cons; tauto).
    case_bool_decide; [by rewrite lookup_insert_ne|done].
Qed.

(** C5. For well-formed tables, on the fast path, where the key columns are
    set as the index of both filtered tables and the two indexes carry the
    same labels, every non-key column is compared position by position with
    null-safe equality ([a == b], or both missing).  A column has an entry in
    [columns_with_value_changes] exactly when its number of mismatches is
    not zero; [changed_rows] is that number and [percentage] is that number
    divided by the number of current rows before the filtering, times 100,
    rounded to 2 decimals. *)
Theorem fast_path_value_changes self schema_diff :
  let cols := common_cols self schema_diff in
  let filtered := filter_unchanged cols (current self) (previous self) in
  let pks := primary_keys self in
  wf_comparator self = true ->
  len (current self) = len (previous self) ->
  ~ (len (current self) = 0 /\ len (previous self) = 0) ->
  pks ≠ [] ->
  (forall pk, pk ∈ pks -> pk ∈ cols) ->
  ix_labels (set_index pks filtered.1) = ix_labels (set_index pks filtered.2) ->
  exists value_diff value_changes,
    compare_values (F:=F) self schema_diff = Ok value_diff
    /\ columns_with_value_changes value_diff = Some value_changes
    /\ forall c,
         value_changes !! c =
           if decide (c ∈ cols /\ (c ∉ pks) /\ 0 < mismatches filtered.1 filtered.2 c)
           then Some {| changed_rows := mismatches filtered.1 filtered.2 c;
                        percentage :=
                          round_ndigits
                            (fmul (truediv (mismatches filtered.1 filtered.2 c)
                                           (len (current self)))
                                  100)
                            2 |}
           else None.
Proof.
  intros cols filtered pks _ Hlen Hnonempty Hpks Hkeys Hlabels.
  rewrite compare_values_main by done. cbv zeta. fold cols pks filtered.
  rewrite bool_decide_eq_true_2 by done.
  destruct (list_find (fun pk => pk ∉ cols) pks) as [[i pk]|] eqn:Hfind.
  { apply list_find_Some in Hfind as (Hi & Hpk & _). destruct Hpk.
    apply Hkeys. by eapply list_elem_of_lookup_2. }
  destruct (fast_loop_aligned filtered.1 filtered.2 pks
              (filter (fun c => c ∉ pks) cols) (len (current self)) ∅ Hlabels)
    as (vc & -> & Hvc).
  { intros c Hc. apply list_elem_of_filter in Hc as [_ Hc]. done. }
  eexists _, vc. split; [done|]. split; [done|].
  intros c. rewrite Hvc, lookup_empty. unfold change_entry, percent.
  rewrite bool_decide_eq_true_2 by (intros Hzero; apply Hnonempty; split; congruence).
  apply decide_ext. rewrite list_elem_of_filter. tauto.
Qed.

End FastPath.

(** ** The fallback: merge on the key *)

Section Fallback.
Context {V : Type} `{!EqDecision V} {F : Type} `{!PyFloat F}.
Implicit Types (self : DFComparator V) (schema_diff : SchemaDiff) (r : row V).
Implicit Types (cols on more keys sub : list string) (c : string).

Lemma col_index_app_l on more c :
  c ∈ on -> col_index (on ++ more) c = col_index on c.
Proof.
  intros Hc. unfold col_index.
  destruct (list_find_elem_of (fun x => x = c) on c Hc eq_refl) as [[i x] Hfind].
  by rewrite (list_find_app_l _ _ _ _ _ Hfind), Hfind.
Qed.

Lemma col_index_app_r on more c :
  c ∉ on -> col_index (on ++ more) c = (fun i => (i + length on)%nat) <$> col_index more c.
Proof.
  intros Hc. unfold col_index. rewrite list_find_app_r.
  - by destruct (list_find _ more) as [[i x]|].
  - apply list_find_None, Forall_forall. by intros x Hx ->.
Qed.

Lemma col_index_fmap (g : string -> string) `{!Inj (=) (=) g} cols c :
  col_index (g <$> cols) (g c) = col_index cols c.
Proof.
  unfold col_index. rewrite list_find_fmap.
  rewrite (list_find_ext _ (fun x => x = c)).
  - by destruct (list_find _ cols) as [[i x]|].
  - intros x. simpl. split; [apply (inj g) | by intros ->].
Qed.

Lemma cell_at_app_l (f : string -> cell V) on more (t : row V) c :
  c ∈ on -> cell_at (on ++ more) (map f on ++ t) c = f c.
Proof.
  intros Hc. unfold cell_at. rewrite col_index_app_l by done.
  exact (cell_at_map f on t c Hc).
Qed.

Lemma cell_at_app_r on more (k t : row V) c :
  c ∉ on -> length k = length on ->
  cell_at (on ++ more) (k ++ t) c = cell_at more t c.
Proof.
  intros Hc Hlen. unfold cell_at. rewrite col_index_app_r by done.
  destruct (col_index more c) as [i|]; [|done]. simpl.
  rewrite lookup_app_r by lia. do 3 f_equal. lia.
Qed.

Lemma cell_at_fmap (g : string -> string) `{!Inj (=) (=) g}
    (f : string -> cell V) sub more (t : row V) c :
  c ∈ sub -> cell_at ((g <$> sub) ++ more) (map f sub ++ t) (g c) = f c.
Proof.
  intros Hc. unfold cell_at.
  rewrite col_index_app_l by (apply list_elem_of_fmap; by exists c).
  rewrite col_index_fmap by done.
  exact (cell_at_map f sub t c Hc).
Qed.

(** The frames handed to the merge. *)
Lemma reset_set_index_columns keys (df : Frame V) :
  columns (reset_index (set_index keys df))
  = keys ++ filter (fun c => c ∉ keys) (columns df).
Proof. done. Qed.

Lemma reset_set_index_data keys (df : Frame V) :
  data (reset_index (set_index keys df))
  = map (fun r => project (columns df) keys r
                  ++ project (columns df) (filter (fun c => c ∉ keys) (columns df)) r)
        (data df).
Proof.
  unfold reset_index, set_index, select. cbn [ix_labels ix_frame data].
  apply zip_with_fmap_diag.
Qed.

Lemma filter_keys_app keys sub :
  (forall c, c ∈ sub -> c ∉ keys) ->
  filter (fun c => c ∉ keys) (keys ++ sub) = sub.
Proof.
  intros Hsub. rewrite filter_app, filter_none, filter_all; [done|done|].
  intros c Hc Hnot. done.
Qed.

Lemma project_reset_keys cols keys sub r :
  project (keys ++ sub) keys (project cols keys r ++ project cols sub r)
  = project cols keys r.
Proof.
  unfold project at 1. apply map_ext_in. intros pk Hpk.
  apply (cell_at_app_l (cell_at cols r)). by apply list_elem_of_In.
Qed.

Lemma cell_at_reset_sub cols keys sub r c :
  c ∈ sub -> c ∉ keys ->
  cell_at (keys ++ sub) (project cols keys r ++ project cols sub r) c = cell_at cols r c.
Proof.
  intros Hc Hkey. rewrite cell_at_app_r by (done || apply length_map).
  by apply cell_at_project.
Qed.

Lemma project_reset_sub cols keys sub r :
  (forall c, c ∈ sub -> c ∉ keys) ->
  project (keys ++ sub) sub (project cols keys r ++ project cols sub r)
  = project cols sub r.
Proof.
  intros Hsub. transitivity (map (cell_at cols r) sub); [|done].
  unfold project at 1. apply map_ext_in. intros c Hc.
  apply list_elem_of_In in Hc. apply cell_at_reset_sub; auto.
Qed.

(** The comparison of two columns of a merged frame on the rows marked
    [both]. *)
Lemma merged_neq_count (m : Merged V) (c1 c2 : string) :
  neq_count (loc m (both_mask m) c1) (loc m (both_mask m) c2)
  = Ok (Z.of_nat (length (filter
         (fun x : indicator * row V =>
            x.1 = both
            /\ ~ null_safe_equal (cell_at (m_columns m) x.2 c1)
                                 (cell_at (m_columns m) x.2 c2))
         (m_rows m)))).
Proof.
  rewrite neq_count_aligned by done. do 2 f_equal.
  unfold loc, both_mask. cbn [s_values].
  rewrite zip_with_fmap_diag, length_filter_fmap. cbn [fst snd].
  etransitivity.
  { exact (picked_count
             (fun y : indicator * row V =>
                ~ null_safe_equal (cell_at (m_columns m) y.2 c1)
                                  (cell_at (m_columns m) y.2 c2))
             (fun y => bool_decide (y.1 = both)) id (m_rows m)). }
  apply length_filter_ext. intros x _. rewrite bool_decide_eq_true. tauto.
Qed.

Lemma suffixed_fmap sub (sfx : string) :
  suffixed sub sfx <$> sub = (fun c => c +:+ sfx) <$> sub.
Proof.
  apply list_fmap_ext. intros i c Hc. unfold suffixed.
  rewrite bool_decide_eq_true_2; [done|]. by eapply list_elem_of_lookup_2.
Qed.

(** The cells of a paired row of the merge under the two suffixed names of a
    non-key column. *)
Lemma merged_cells cols keys sub (p c' : row V) c :
  c ∈ sub -> c +:+ "_prev" ∉ keys -> c +:+ "_curr" ∉ keys ->
  let mcols := keys ++ ((fun c => c +:+ "_prev") <$> sub)
                    ++ ((fun c => c +:+ "_curr") <$> sub) ++ ["_merge"] in
  let merged_row := project cols keys p ++ project cols sub p ++ project cols sub c' in
  cell_at mcols merged_row (c +:+ "_prev") = cell_at cols p c
  /\ cell_at mcols merged_row (c +:+ "_curr") = cell_at cols c' c.
Proof.
  intros Hc Hprev Hcurr mcols merged_row. subst mcols merged_row. split.
  - rewrite cell_at_app_r by (done || apply length_map).
    apply (cell_at_fmap (fun c => c +:+ "_prev") (cell_at cols p)). done.
  - rewrite cell_at_app_r by (done || apply length_map).
    rewrite cell_at_app_r.
    + rewrite <- (app_nil_r (project cols sub c')).
      apply (cell_at_fmap (fun c => c +:+ "_curr") (cell_at cols c')). done.
    + intros Hin. apply list_elem_of_fmap in Hin as (c0 & Heq & _).
      symmetry in Heq. by apply prev_curr_distinct in Heq.
    + unfold project. by rewrite length_map, length_fmap.
Qed.

(** On two frames with the same columns, the merge on [keys] compares, for a
    non-key column, every pair of rows with the same key. *)
Lemma merge_pair_mismatches (prev cur : Frame V) keys c :
  columns prev = columns cur ->
  c ∈ columns cur -> c ∉ keys ->
  c +:+ "_prev" ∉ keys -> c +:+ "_curr" ∉ keys ->
  let m := merge_outer (reset_index (set_index keys prev))
                       (reset_index (set_index keys cur)) keys "_prev" "_curr" in
  neq_count (loc m (both_mask m) (c +:+ "_prev")) (loc m (both_mask m) (c +:+ "_curr"))
  = Ok (pair_mismatches keys prev cur c)
  /\ c +:+ "_prev" ∈ m_columns m
  /\ c +:+ "_curr" ∈ m_columns m.
Proof.
  intros Hcols Hc Hkey Hprev Hcurr m.
  set (cols := columns cur) in *.
  set (sub := filter (fun c => c ∉ keys) cols).
  assert (Hsub : forall c, c ∈ sub -> c ∉ keys)
    by (intros c0 Hc0; by apply list_elem_of_filter in Hc0 as [? _]).
  assert (Hcsub : c ∈ sub) by (by apply list_elem_of_filter).
  assert (Hm_columns : m_columns m
            = keys ++ ((fun c => c +:+ "_prev") <$> sub)
                   ++ ((fun c => c +:+ "_curr") <$> sub) ++ ["_merge"]).
  { subst m. unfold merge_outer. cbn [m_columns].
    rewrite !reset_set_index_columns, Hcols. fold cols. fold sub.
    rewrite (filter_keys_app keys sub Hsub). by rewrite !suffixed_fmap. }
  split; [|rewrite Hm_columns; split].
  - rewrite merged_neq_count, Hm_columns. unfold pair_mismatches.
    rewrite Hcols. fold cols. do 2 f_equal.
    subst m. unfold merge_outer. cbn [m_rows].
    rewrite !reset_set_index_columns, !reset_set_index_data, Hcols.
    fold cols. fold sub. rewrite (filter_keys_app keys sub Hsub).
    rewrite !filter_app, !length_app.
    rewrite (filter_none _ (_ <$> _)), (filter_none _ (_ <$> _)).
    + rewrite !Nat.add_0_r.
      apply (length_filter_joined
               (fun r => project cols keys r ++ project cols sub r)
               (fun r => project cols keys r ++ project cols sub r)
               (fun a' b' => project (keys ++ sub) keys b' = project (keys ++ sub) keys a')).
      intros p c'. cbn [fst snd].
      rewrite !project_reset_keys, !(project_reset_sub _ _ _ _ Hsub).
      destruct (merged_cells cols keys sub p c' c Hcsub Hprev Hcurr) as [-> ->].
      tauto.
    + intros x Hx. apply list_elem_of_fmap in Hx as (r & -> & _). by intros [? _].
    + intros x Hx. apply list_elem_of_fmap in Hx as (r & -> & _). by intros [? _].
  - rewrite !elem_of_app. right. left. apply list_elem_of_fmap. by exists c.
  - rewrite !elem_of_app. right. right. left. apply list_elem_of_fmap. by exists c.
Qed.

(** With different labels on the two sides, the first column interrupts the
    loop of the fast path, before anything is recorded. *)
Lemma fast_loop_misaligned (cur prev : Frame V) (pks cols : list string)
    (current_len : Z) (value_changes : gmap string (ChangeEntry F)) :
  ix_labels (set_index pks cur) ≠ ix_labels (set_index pks prev) ->
  cols ≠ [] -> (forall c, c ∈ cols -> c ∉ pks) ->
  fast_loop (set_index pks cur) (set_index pks prev) pks current_len cols value_changes
  = (value_changes,
     Some (ValueError "Can only compare identically-labeled Series objects")).
Proof.
  intros Hlabels Hcols Hnonkey. destruct cols as [|col cols]; [done|].
  cbn [fast_loop]. rewrite bool_decide_eq_false_2 by (apply Hnonkey; left).
  rewrite neq_count_misaligned; [done|].
  rewrite !ix_getitem_index. intros Heq. by apply fmap_KeyLabel_inj in Heq.
Qed.

(** The loop of the fallback on the merge of two frames with the same
    columns. *)
Lemma fallback_loop_pairs (prev cur : Frame V) (pks cols : list string)
    (current_len : Z) (value_changes : gmap string (ChangeEntry F)) :
  columns prev = columns cur ->
  (forall c, c ∈ cols ->
     c ∈ columns cur /\ (c ∉ pks) /\ (c +:+ "_prev" ∉ pks) /\ c +:+ "_curr" ∉ pks) ->
  exists value_changes',
    fallback_loop
      (merge_outer (reset_index (set_index pks prev)) (reset_index (set_index pks cur))
         pks "_prev" "_curr")
      current_len cols value_changes
    = Ok value_changes'
    /\ forall c, value_changes' !! c =
         if decide (c ∈ cols /\ 0 < pair_mismatches pks prev cur c)
         then Some (change_entry (pair_mismatches pks prev cur c) current_len)
         else value_changes !! c.
Proof.
  intros Hsame. revert value_changes.
  induction cols as [|col cols IH]; intros value_changes Hcols.
  { exists value_changes. split; [done|]. intros c.
    rewrite decide_False; [done|]. intros [Hc _]. by apply not_elem_of_nil in Hc. }
  assert (Hrest : forall c, c ∈ cols ->
            c ∈ columns cur /\ (c ∉ pks) /\ (c +:+ "_prev" ∉ pks) /\ c +:+ "_curr" ∉ pks)
    by (intros c Hc; apply Hcols; by right).
  destruct (Hcols col ltac:(left)) as (Hc & Hkey & Hprev & Hcurr).
  destruct (merge_pair_mismatches prev cur pks col Hsame Hc Hkey Hprev Hcurr)
    as (Hneq & Hl & Hr).
  cbn [fallback_loop]. cbv zeta in Hneq, Hl, Hr.
  rewrite !(bool_decide_eq_false_2 (_ ∉ _)) by (intros Hnot; by apply Hnot).
  cbn [orb]. rewrite Hneq. cbn [bind].
  destruct (IH (if bool_decide (0 < pair_mismatches pks prev cur col)
                then <[col:=change_entry (pair_mismatches pks prev cur col) current_len]>
                       value_changes
                else value_changes) Hrest) as (vc' & -> & Hvc').
  exists vc'. split; [done|]. intros c. rewrite Hvc'.
  destruct (decide (c ∈ cols /\ 0 < pair_mismatches pks prev cur c)) as [Hin|Hout].
  { rewrite decide_True; [done|]. rewrite elem_of_cons. tauto. }
  destruct (decide (c = col)) as [->|Hne].
  - case_bool_decide as Hpos.
    + rewrite lookup_insert_eq, decide_True; [done|]. split; [by left|done].
    + rewrite decide_False; [done|]. tauto.
  - rewrite decide_False by (rewrite elem_of_cons; tauto).
    case_bool_decide; [by rewrite lookup_insert_ne|done].
Qed.

(** C9. For well-formed tables: when the key columns of the two filtered
    tables do not carry the same labels, so that the comparison of the fast
    path cannot align them (as duplicate key values left on one side make
    it), [compare_values] raises nothing: it
    merges previous and current on the key columns and compares, for every
    non-key column, the rows present on both sides, that is every pair of a
    previous and a current row with the same key, with the same null-safe
    equality and the same counting as on the fast path. *)
Theorem fallback_value_changes self schema_diff :
  let cols := common_cols self schema_diff in
  let filtered := filter_unchanged cols (current self) (previous self) in
  let pks := primary_keys self in
  wf_comparator self = true ->
  len (current self) = len (previous self) ->
  ~ (len (current self) = 0 /\ len (previous self) = 0) ->
  pks ≠ [] ->
  (forall pk, pk ∈ pks -> pk ∈ cols) ->
  ix_labels (set_index pks filtered.1) ≠ ix_labels (set_index pks filtered.2) ->
  exists value_diff value_changes,
    compare_values (F:=F) self schema_diff = Ok value_diff
    /\ columns_with_value_changes value_diff = Some value_changes
    /\ forall c,
         value_changes !! c =
           if decide (c ∈ cols /\ (c ∉ pks)
                      /\ 0 < pair_mismatches pks filtered.2 filtered.1 c)
           then Some {| changed_rows := pair_mismatches pks filtered.2 filtered.1 c;
                        percentage :=
                          round_ndigits
                            (fmul (truediv (pair_mismatches pks filtered.2 filtered.1 c)
                                           (len (current self)))
                                  100)
                            2 |}
           else None.
Proof.
  intros cols filtered pks Hwf Hlen Hnonempty Hpks Hkeys Hlabels.
  assert (Hnames : forall c, c ∈ cols ->
            (c +:+ "_prev" ∉ pks) /\ (c +:+ "_curr" ∉ pks)).
  { intros c Hc. apply elem_of_common_cols in Hc as (Hc & _).
    unfold wf_comparator in Hwf. apply andb_true_iff in Hwf as [_ Hwf].
    apply bool_decide_eq_true in Hwf. rewrite Forall_forall in Hwf. by apply Hwf. }
  assert (Hpct : forall n, change_entry (F:=F) n (len (current self))
                 = {| changed_rows := n;
                      percentage :=
                        round_ndigits (fmul (truediv n (len (current self))) 100) 2 |}).
  { intros n. unfold change_entry, percent.
    rewrite bool_decide_eq_true_2; [done|].
    intros Hzero; apply Hnonempty; split; congruence. }
  rewrite compare_values_main by done. cbv zeta. fold cols pks filtered.
  rewrite bool_decide_eq_true_2 by done.
  destruct (list_find (fun pk => pk ∉ cols) pks) as [[i pk]|] eqn:Hfind.
  { apply list_find_Some in Hfind as (Hi & Hpk & _). destruct Hpk.
    apply Hkeys. by eapply list_elem_of_lookup_2. }
  destruct (decide (filter (fun c => c ∉ pks) cols = [])) as [Hnone|Hsome].
  - rewrite Hnone. cbn [fast_loop]. eexists _, ∅. split; [done|]. split; [done|].
    intros c. rewrite lookup_empty, decide_False; [done|].
    intros (Hc & Hkey & _).
    assert (Hin : c ∈ filter (fun c => c ∉ pks) cols) by (by apply list_elem_of_filter).
    rewrite Hnone in Hin. by apply not_elem_of_nil in Hin.
  - rewrite fast_loop_misaligned; [|done|done|].
    2:{ intros c Hc. by apply list_elem_of_filter in Hc as [? _]. }
    rewrite filter_keys_app
      by (intros c Hc; by apply list_elem_of_filter in Hc as [? _]).
    destruct (fallback_loop_pairs filtered.2 filtered.1 pks
                (filter (fun c => c ∉ pks) cols) (len (current self)) ∅ eq_refl)
      as (vc & -> & Hvc).
    { intros c Hc. apply list_elem_of_filter in Hc as [Hkey Hc].
      destruct (Hnames c Hc). done. }
    cbn [bind]. eexists _, vc. split; [done|]. split; [done|].
    intros c. rewrite Hvc, lookup_empty, Hpct.
    apply decide_ext. rewrite list_elem_of_filter. tauto.
Qed.

End Fallback.

(** ** More on the classifier *)

Lemma lower_ascii_idemp (c : ascii) :
  PyStr.lower_ascii (PyStr.lower_ascii c) = PyStr.lower_ascii c.
Proof. destruct c as [[] [] [] [] [] [] [] []]; reflexivity. Qed.

Lemma lower_idemp (s : string) : PyStr.lower (PyStr.lower s) = PyStr.lower s.
Proof.
  induction s as [|c s IH]; [done|]. simpl. by rewrite lower_ascii_idemp, IH.
Qed.

Lemma lower_append (s1 s2 : string) :
  PyStr.lower (s1 +:+ s2) = PyStr.lower s1 +:+ PyStr.lower s2.
Proof.
  induction s1 as [|c s1 IH]; [done|].
  rewrite append_cons. simpl. by rewrite IH, append_cons.
Qed.

Lemma append_assoc (s1 s2 s3 : string) : (s1 +:+ s2) +:+ s3 = s1 +:+ (s2 +:+ s3).
Proof.
  induction s1 as [|c s1 IH]; [done|]. by rewrite !append_cons, IH.
Qed.

Lemma in_family_append_l (family : list string) (d1 d2 : string) :
  in_family family d1 -> in_family family (d1 +:+ d2).
Proof.
  intros (t & Ht & pre & post & Heq). exists t. split; [done|].
  exists pre, (post +:+ PyStr.lower d2).
  by rewrite lower_append, Heq, !append_assoc.
Qed.

Lemma in_family_append_r (family : list string) (d1 d2 : string) :
  in_family family d2 -> in_family family (d1 +:+ d2).
Proof.
  intros (t & Ht & pre & post & Heq). exists t. split; [done|].
  exists (PyStr.lower d1 +:+ pre), post.
  by rewrite lower_append, Heq, !append_assoc.
Qed.

Lemma are_types_compatible_sym (dtype1 dtype2 : string) :
  _are_types_compatible dtype1 dtype2 = _are_types_compatible dtype2 dtype1.
Proof.
  unfold _are_types_compatible.
  rewrite (bool_decide_ext (PyStr.lower dtype1 = PyStr.lower dtype2)
                           (PyStr.lower dtype2 = PyStr.lower dtype1)) by done.
  destruct (PyStr.any_in numeric_types (PyStr.lower dtype1)),
           (PyStr.any_in numeric_types (PyStr.lower dtype2)),
           (PyStr.any_in string_types (PyStr.lower dtype1)),
           (PyStr.any_in string_types (PyStr.lower dtype2)),
           (PyStr.any_in datetime_types (PyStr.lower dtype1)),
           (PyStr.any_in datetime_types (PyStr.lower dtype2)); reflexivity.
Qed.

(** X1. The classifier relates every descriptor to itself, and does not
    depend on the order of its two arguments. *)
Theorem are_types_compatible_refl_sym :
  (forall dtype, _are_types_compatible dtype dtype = true)
  /\ (forall dtype1 dtype2,
        _are_types_compatible dtype1 dtype2 = _are_types_compatible dtype2 dtype1).
Proof.
  split; [|apply are_types_compatible_sym].
  intros dtype. unfold _are_types_compatible.
  rewrite (bool_decide_eq_true_2 (_ = _)) by done.
  by repeat case_match.
Qed.

(** X2. The classifier does not see the case of the letters of either
    descriptor. *)
Theorem are_types_compatible_case_insensitive (dtype1 dtype2 : string) :
  _are_types_compatible (PyStr.lower dtype1) dtype2
  = _are_types_compatible dtype1 dtype2
  /\ _are_types_compatible dtype1 (PyStr.lower dtype2)
     = _are_types_compatible dtype1 dtype2.
Proof. unfold _are_types_compatible. by rewrite !lower_idemp. Qed.

(** X3. Compatibility is not transitive: for a numeric descriptor and a
    textual descriptor that are not compatible with each other (as [int64]
    and [object]), the descriptor made of the first followed by the second
    is compatible with both. *)
Theorem are_types_compatible_not_transitive (numeric textual : string) :
  in_family numeric_types numeric ->
  in_family string_types textual ->
  _are_types_compatible numeric textual = false ->
  _are_types_compatible numeric (numeric +:+ textual) = true
  /\ _are_types_compatible (numeric +:+ textual) textual = true
  /\ _are_types_compatible numeric textual = false.
Proof.
  intros Hnum Htext Hnot.
  pose proof (in_family_append_l _ numeric textual Hnum) as Hnum'.
  pose proof (in_family_append_r _ numeric textual Htext) as Htext'.
  apply any_in_spec in Hnum, Htext, Hnum', Htext'.
  split_and!; [| |done]; unfold _are_types_compatible;
    rewrite ?Hnum, ?Htext, ?Hnum', ?Htext'; [done|]. by repeat case_match.
Qed.


(** ** The schema diff *)

Section SchemaDiff.
Context {V : Type} `{!EqDecision V}.
Implicit Types (self : DFComparator V).

Lemma foldl_insert_lookup {A : Type} (P : string -> Prop) `{!forall c, Decision (P c)}
    (g : string -> A) (l : list string) (m : gmap string A) (c : string) :
  foldl (fun acc col => if bool_decide (P col) then <[col := g col]> acc else acc) m l !! c
  = if decide (c ∈ l /\ P c) then Some (g c) else m !! c.
Proof.
  revert m. induction l as [|col l IH]; intros m; cbn [foldl].
  { rewrite decide_False; [done|]. intros [Hc _]. by apply not_elem_of_nil in Hc. }
  rewrite IH.
  destruct (decide (c ∈ l /\ P c)) as [Hin|Hout].
  { rewrite decide_True; [done|]. rewrite elem_of_cons. tauto. }
  destruct (decide (c = col)) as [->|Hne].
  - case_bool_decide as HP.
    + rewrite lookup_insert_eq, decide_True; [done|]. split; [by left|done].
    + rewrite decide_False; [done|]. tauto.
  - rewrite decide_False by (rewrite elem_of_cons; tauto).
    case_bool_decide; [by rewrite lookup_insert_ne|done].
Qed.

Lemma type_changes_lookup self (c : string) :
  type_changes (compare_schema self) !! c
  = if decide ((c ∈ columns (current self) /\ c ∈ columns (previous self))
               /\ dtype_of (current self) c ≠ dtype_of (previous self) c)
    then Some {| TypeChange.previous := dtype_of (previous self) c;
                 TypeChange.current := dtype_of (current self) c |}
    else None.
Proof.
  unfold compare_schema. cbn [type_changes].
  rewrite (foldl_insert_lookup
             (fun col => dtype_of (current self) col ≠ dtype_of (previous self) col)
             (fun col => {| TypeChange.previous := dtype_of (previous self) col;
                            TypeChange.current := dtype_of (current self) col |})).
  rewrite lookup_empty. apply decide_ext.
  rewrite elem_of_elements, elem_of_intersection, !elem_of_list_to_set. tauto.
Qed.

Lemma type_changes_exchanged self :
  type_changes (compare_schema (exchanged self))
  = mirrored <$> type_changes (compare_schema self).
Proof.
  apply map_eq. intros c.
  rewrite lookup_fmap, !type_changes_lookup. cbn [exchanged current previous].
  destruct (decide ((c ∈ columns (current self) /\ c ∈ columns (previous self))
                    /\ dtype_of (current self) c ≠ dtype_of (previous self) c))
    as [Hchanged|Hsame].
  - rewrite decide_True by (split; [tauto|]; intros Heq; symmetry in Heq; tauto).
    done.
  - rewrite decide_False; [done|]. intros [? Hne]. destruct Hsame. split; [tauto|].
    intros Heq. by apply Hne.
Qed.

(** X4. In the schema diff, [added_columns] holds the columns of the current
    table that the previous table has not, [removed_columns] the columns of
    the previous table that the current table has not, each once; no column
    is in both lists; the two totals are the numbers of columns. *)
Theorem compare_schema_added_removed self :
  (forall c, c ∈ added_columns (compare_schema self)
             <-> c ∈ columns (current self) /\ c ∉ columns (previous self))
  /\ (forall c, c ∈ removed_columns (compare_schema self)
                <-> c ∈ columns (previous self) /\ c ∉ columns (current self))
  /\ NoDup (added_columns (compare_schema self))
  /\ NoDup (removed_columns (compare_schema self))
  /\ (forall c, c ∈ added_columns (compare_schema self) ->
                c ∉ removed_columns (compare_schema self))
  /\ total_columns_current (compare_schema self)
     = Z.of_nat (length (columns (current self)))
  /\ total_columns_previous (compare_schema self)
     = Z.of_nat (length (columns (previous self))).
Proof.
  unfold compare_schema. cbn [added_columns removed_columns total_columns_current
                               total_columns_previous].
  split_and!; try done; try apply NoDup_elements.
  - intros c. by rewrite elem_of_elements, elem_of_difference, !elem_of_list_to_set.
  - intros c. by rewrite elem_of_elements, elem_of_difference, !elem_of_list_to_set.
  - intros c. rewrite !elem_of_elements, !elem_of_difference. tauto.
Qed.

(** X5. [type_changes] has an entry for a column exactly when the column is
    in both tables and its two dtype descriptors differ as strings; the
    entry holds the two descriptors as they are, whether the classifier
    finds them compatible or not. *)
Theorem compare_schema_type_changes self (c : string) :
  (forall change,
     type_changes (compare_schema self) !! c = Some change <->
       c ∈ columns (current self) /\ c ∈ columns (previous self)
       /\ dtype_of (current self) c ≠ dtype_of (previous self) c
       /\ change = {| TypeChange.previous := dtype_of (previous self) c;
                      TypeChange.current := dtype_of (current self) c |})
  /\ (type_changes (compare_schema self) !! c = None <->
        c ∉ columns (current self) \/ c ∉ columns (previous self)
        \/ dtype_of (current self) c = dtype_of (previous self) c).
Proof.
  rewrite type_changes_lookup. case_decide as Hc.
  - split.
    + intros change. split; [intros [= <-]; tauto | intros (_ & _ & _ & ->); done].
    + split; [done|]. intros [?|[?|?]]; tauto.
  - split.
    + intros change. split; [done|]. intros (? & ? & ? & _). tauto.
    + split; [|done]. intros _.
      destruct (decide (c ∈ columns (current self))); [|tauto].
      destruct (decide (c ∈ columns (previous self))); [|tauto].
      right. right. apply dec_stable. tauto.
Qed.

(** X6. Exchanging the two tables exchanges [added_columns] and
    [removed_columns], exchanges the two totals, and turns every type change
    round. *)
Theorem compare_schema_exchanged self :
  added_columns (compare_schema (exchanged self)) = removed_columns (compare_schema self)
  /\ removed_columns (compare_schema (exchanged self))
     = added_columns (compare_schema self)
  /\ type_changes (compare_schema (exchanged self))
     = mirrored <$> type_changes (compare_schema self)
  /\ total_columns_current (compare_schema (exchanged self))
     = total_columns_previous (compare_schema self)
  /\ total_columns_previous (compare_schema (exchanged self))
     = total_columns_current (compare_schema self).
Proof. split_and!; try done. apply type_changes_exchanged. Qed.

(** X7. When the two tables have the same columns, in any order, and every
    column has the same dtype in both, the schema diff is empty: nothing
    added, nothing removed, no type change, equal totals. *)
Theorem compare_schema_reordered_columns self :
  columns (current self) ≡ₚ columns (previous self) ->
  (forall c, c ∈ columns (current self) ->
     dtype_of (current self) c = dtype_of (previous self) c) ->
  added_columns (compare_schema self) = []
  /\ removed_columns (compare_schema self) = []
  /\ type_changes (compare_schema self) = ∅
  /\ total_columns_current (compare_schema self)
     = total_columns_previous (compare_schema self).
Proof.
  intros Hperm Hdtypes.
  assert (Hset : (list_to_set (columns (current self)) : gset string)
                 = list_to_set (columns (previous self))).
  { apply set_eq. intros c. by rewrite !elem_of_list_to_set, Hperm. }
  split_and!.
  - unfold compare_schema. cbn [added_columns]. rewrite Hset.
    by rewrite difference_diag_L, elements_empty.
  - unfold compare_schema. cbn [removed_columns]. rewrite Hset.
    by rewrite difference_diag_L, elements_empty.
  - apply map_eq. intros c. rewrite type_changes_lookup, lookup_empty.
    rewrite decide_False; [done|]. intros [[Hc _] Hne]. by apply Hne, Hdtypes.
  - unfold compare_schema. cbn [total_columns_current total_columns_previous].
    by rewrite Hperm.
Qed.

End SchemaDiff.


(** ** What [compare_values] reports and when it fails *)

Section ValueDiff.
Context {V : Type} `{!EqDecision V} {F : Type} `{!PyFloat F}.
Implicit Types (self : DFComparator V) (schema_diff : SchemaDiff).

(** The loop of the fast path only adds entries, for columns it went through
    that are not keys, with a positive count. *)
Lemma fast_loop_entries (cur prev : IndexedFrame V) (pks cols : list string)
    (current_len : Z) (value_changes : gmap string (ChangeEntry F)) c entry :
  (fast_loop cur prev pks current_len cols value_changes).1 !! c = Some entry ->
  value_changes !! c = Some entry
  \/ (c ∈ cols /\ (c ∉ pks) /\ 0 < changed_rows entry
      /\ entry = change_entry (changed_rows entry) current_len).
Proof.
  revert value_changes. induction cols as [|col cols IH]; intros value_changes;
    cbn [fast_loop]; [by left|].
  case_bool_decide as Hpk.
  { intros [?|(? & ? & ?)]%IH; [by left|]. right. rewrite elem_of_cons. tauto. }
  destruct (neq_count _ _) as [neq|e]; [|by left].
  intros [Hold|(? & ? & ?)]%IH; [|right; rewrite elem_of_cons; tauto].
  case_bool_decide as Hpos; [|by left].
  destruct (decide (c = col)) as [->|Hne].
  - rewrite lookup_insert_eq in Hold. injection Hold as <-. right.
    split; [by left|]. done.
  - rewrite lookup_insert_ne in Hold by done. by left.
Qed.

(** The loop of the fallback never raises, and only adds entries, for columns
    it went through, with a positive count. *)
Lemma fallback_loop_entries (result : Merged V) (cols : list string)
    (current_len : Z) (value_changes : gmap string (ChangeEntry F)) :
  exists value_changes',
    fallback_loop result current_len cols value_changes = Ok value_changes'
    /\ forall c entry, value_changes' !! c = Some entry ->
         value_changes !! c = Some entry
         \/ (c ∈ cols /\ 0 < changed_rows entry
             /\ entry = change_entry (changed_rows entry) current_len).
Proof.
  revert value_changes. induction cols as [|col cols IH]; intros value_changes;
    cbn [fallback_loop].
  { exists value_changes. split; [done|]. intros c entry. by left. }
  destruct (bool_decide _ || bool_decide _).
  { destruct (IH value_changes) as (vc' & -> & Hvc'). exists vc'. split; [done|].
    intros c entry [?|(? & ?)]%Hvc'; [by left|]. right. rewrite elem_of_cons. tauto. }
  rewrite merged_neq_count. cbn [bind].
  match goal with
  | |- context [fallback_loop _ _ _ ?vc0] => destruct (IH vc0) as (vc' & -> & Hvc')
  end.
  exists vc'. split; [done|].
  intros c entry [Hold|(? & ?)]%Hvc'; [|right; rewrite elem_of_cons; tauto].
  case_bool_decide as Hpos; [|by left].
  destruct (decide (c = col)) as [->|Hne].
  - rewrite lookup_insert_eq in Hold. injection Hold as <-. right.
    split; [by left|]. done.
  - rewrite lookup_insert_ne in Hold by done. by left.
Qed.

(** X8. Every column [compare_values] reports in
    [columns_with_value_changes] is a column of both tables, is not a
    declared key column, has no incompatible type change, and comes with a
    positive [changed_rows] and the [percentage] computed from it over the
    number of current rows: key columns, added or removed columns and
    columns of incompatible types are never reported. *)
Theorem reported_columns self schema_diff value_diff value_changes c entry :
  wf_comparator self = true ->
  compare_values (F:=F) self schema_diff = Ok value_diff ->
  columns_with_value_changes value_diff = Some value_changes ->
  value_changes !! c = Some entry ->
  c ∈ columns (current self) /\ c ∈ columns (previous self)
  /\ (c ∉ incompatible_type_cols schema_diff)
  /\ (c ∉ primary_keys self)
  /\ 0 < changed_rows entry
  /\ percentage entry
     = round_ndigits (fmul (truediv (changed_rows entry) (len (current self))) 100) 2.
Proof.
  intros _ Hdiff Hmap Hentry.
  destruct (decide (len (current self) = len (previous self))) as [Hlen|Hlen].
  2:{ unfold compare_values in Hdiff. rewrite bool_decide_eq_true_2 in Hdiff by done.
      injection Hdiff as <-. discriminate Hmap. }
  destruct (decide (len (current self) = 0)) as [Hzero|Hpos].
  { rewrite compare_values_both_empty in Hdiff by congruence.
    injection Hdiff as <-. injection Hmap as <-. by rewrite lookup_empty in Hentry. }
  assert (Hpct : forall n, percent (F:=F) n (len (current self))
                 = round_ndigits (fmul (truediv n (len (current self))) 100) 2).
  { intros n. unfold percent. by rewrite bool_decide_eq_true_2. }
  enough (c ∈ common_cols self schema_diff /\ (c ∉ primary_keys self)
          /\ 0 < changed_rows entry
          /\ percentage entry
             = round_ndigits
                 (fmul (truediv (changed_rows entry) (len (current self))) 100) 2)
    as (Hc%elem_of_common_cols & ? & ? & ?) by tauto.
  rewrite compare_values_main in Hdiff by tauto. cbv zeta in Hdiff.
  case_bool_decide as Hpks.
  2:{ injection Hdiff as <-. injection Hmap as <-. by rewrite lookup_empty in Hentry. }
  destruct (list_find _ _) as [[i pk]|]; [discriminate|].
  destruct (fast_loop _ _ _ _ _ _) as [vc [e|]] eqn:Hfast.
  - destruct (fallback_loop_entries
                (merge_outer
                   (reset_index (set_index (primary_keys self)
                      (filter_unchanged (common_cols self schema_diff)
                         (current self) (previous self)).2))
                   (reset_index (set_index (primary_keys self)
                      (filter_unchanged (common_cols self schema_diff)
                         (current self) (previous self)).1))
                   (primary_keys self) "_prev" "_curr")
                (filter (fun c => c ∉ primary_keys self)
                   (primary_keys self
                    ++ filter (fun c => c ∉ primary_keys self)
                         (common_cols self schema_diff)))
                (len (current self)) vc) as (vc' & Hloop & Hvc').
    rewrite Hloop in Hdiff. cbn [bind] in Hdiff.
    injection Hdiff as <-. injection Hmap as <-.
    apply Hvc' in Hentry as [Hold|(Hc & Hpos' & Heq)].
    + pose proof (fast_loop_entries _ _ _ _ _ _ c entry
                    (eq_ind_r (fun r => r.1 !! c = Some entry) Hold Hfast))
        as [Hempty|(Hc & Hkey & Hpos' & Heq)].
      { by rewrite lookup_empty in Hempty. }
      apply list_elem_of_filter in Hc as [_ Hc].
      split_and!; try done. rewrite Heq at 1. apply Hpct.
    + apply list_elem_of_filter in Hc as [Hkey Hc].
      apply elem_of_app in Hc as [Hc|Hc]; [done|].
      apply list_elem_of_filter in Hc as [_ Hc].
      split_and!; try done. rewrite Heq at 1. apply Hpct.
  - injection Hdiff as <-. injection Hmap as <-.
    pose proof (fast_loop_entries _ _ _ _ _ _ c entry
                  (eq_ind_r (fun r => r.1 !! c = Some entry) Hentry Hfast))
      as [Hempty|(Hc & Hkey & Hpos' & Heq)].
    { by rewrite lookup_empty in Hempty. }
    apply list_elem_of_filter in Hc as [_ Hc].
    split_and!; try done. rewrite Heq at 1. apply Hpct.
Qed.




End ValueDiff.


(** ** More on the unchanged-row filtering *)

Section FilteringMore.
Context {V : Type} `{!EqDecision V}.
Implicit Types (self : DFComparator V) (schema_diff : SchemaDiff).
Implicit Types (cols : list string) (cur prev : Frame V).

Lemma occurrences_cons {A : Type} `{!EqDecision A} (x y : A) (l : list A) :
  occurrences id x (y :: l)
  = ((if decide (y = x) then 1 else 0) + occurrences id x l)%nat.
Proof. unfold occurrences. rewrite filter_cons. simpl. by case_decide. Qed.

Lemma NoDup_filter_once {A : Type} `{!EqDecision A} (P : A -> Prop)
    `{!forall x, Decision (P x)} (l : list A) :
  (forall x, P x -> (occurrences id x l <= 1)%nat) -> NoDup (filter P l).
Proof.
  induction l as [|y l IH]; intros Honce; [constructor|].
  assert (Htail : NoDup (filter P l)).
  { apply IH. intros x Hx. specialize (Honce x Hx).
    rewrite occurrences_cons in Honce. lia. }
  rewrite filter_cons. case_decide as Hy; [|done].
  constructor; [|done].
  intros [_ Hin%occurrences_pos]%list_elem_of_filter.
  specialize (Honce y Hy). rewrite occurrences_cons, decide_True in Honce by done.
  lia.
Qed.

(** X11. What the unchanged-row filtering leaves: on each side a sub-list of
    the rows of that side (so no more rows than before) in which no row is
    repeated, and no row is left on both sides. *)
Theorem filter_unchanged_invariants self schema_diff :
  let cols := common_cols self schema_diff in
  let filtered := filter_unchanged cols (current self) (previous self) in
  wf_comparator self = true ->
  cols ≠ [] ->
  sublist (data filtered.1) (data (select cols (current self)))
  /\ sublist (data filtered.2) (data (select cols (previous self)))
  /\ NoDup (data filtered.1)
  /\ NoDup (data filtered.2)
  /\ (forall r, r ∈ data filtered.1 -> r ∉ data filtered.2)
  /\ len filtered.1 <= len (current self)
  /\ len filtered.2 <= len (previous self).
Proof.
  intros cols filtered _ _. subst filtered. unfold filter_unchanged. cbn [fst snd].
  unfold len. rewrite !split_origin_data.
  set (cur_rows := data (select cols (current self))).
  set (prev_rows := data (select cols (previous self))).
  assert (Hcur : length cur_rows = length (data (current self)))
    by (subst cur_rows; unfold select; cbn [data]; apply length_map).
  assert (Hprev : length prev_rows = length (data (previous self)))
    by (subst prev_rows; unfold select; cbn [data]; apply length_map).
  split_and!.
  - apply sublist_filter.
  - apply sublist_filter.
  - apply NoDup_filter_once. intros r Hr. lia.
  - apply NoDup_filter_once. intros r Hr. lia.
  - intros r [Hone Hr%occurrences_pos]%list_elem_of_filter
             [_ Hr'%occurrences_pos]%list_elem_of_filter. lia.
  - pose proof (length_filter
                  (fun r => (occurrences id r cur_rows
                             + occurrences id r prev_rows = 1)%nat) cur_rows). lia.
  - pose proof (length_filter
                  (fun r => (occurrences id r cur_rows
                             + occurrences id r prev_rows = 1)%nat) prev_rows). lia.
Qed.

End FilteringMore.


(** ** One changed cell *)

Section OneChange.
Context {V : Type} `{!EqDecision V} {F : Type} `{!PyFloat F}.
Implicit Types (self : DFComparator V) (schema_diff : SchemaDiff).





End OneChange.


(** ** Bounds on the fast path *)

Section FastPathBound.
Context {V : Type} `{!EqDecision V} {F : Type} `{!PyFloat F}.
Implicit Types (self : DFComparator V) (schema_diff : SchemaDiff).

Lemma mismatches_le (cur prev : Frame V) (c : string) :
  0 <= mismatches cur prev c <= len cur.
Proof.
  unfold mismatches, len, column.
  pose proof (length_filter
                (fun ab : cell V * cell V => ~ null_safe_equal ab.1 ab.2)
                (zip (map (fun r => cell_at (columns cur) r c) (data cur))
                     (map (fun r => cell_at (columns prev) r c) (data prev)))) as Hle.
  rewrite length_zip_with, !length_map in Hle. lia.
Qed.

Lemma len_filter_unchanged_le (cols : list string) (cur prev : Frame V) :
  len (filter_unchanged cols cur prev).1 <= len cur
  /\ len (filter_unchanged cols cur prev).2 <= len prev.
Proof.
  unfold filter_unchanged, len. cbn [fst snd]. rewrite !split_origin_data.
  assert (Hcur : length (data (select cols cur)) = length (data cur))
    by (unfold select; cbn [data]; apply length_map).
  assert (Hprev : length (data (select cols prev)) = length (data prev))
    by (unfold select; cbn [data]; apply length_map).
  split.
  - pose proof (length_filter
                  (fun r => (occurrences id r (data (select cols cur))
                             + occurrences id r (data (select cols prev)) = 1)%nat)
                  (data (select cols cur))) as Hle. lia.
  - pose proof (length_filter
                  (fun r => (occurrences id r (data (select cols cur))
                             + occurrences id r (data (select cols prev)) = 1)%nat)
                  (data (select cols prev))) as Hle. lia.
Qed.

(** X13. On the fast path, the [changed_rows] of a reported column is at most
    the number of current rows that survived the filtering, hence at most
    the number of current rows: no column reports more changes than there
    are rows. *)
Theorem fast_path_changed_rows_bound self schema_diff :
  let cols := common_cols self schema_diff in
  let filtered := filter_unchanged cols (current self) (previous self) in
  let pks := primary_keys self in
  wf_comparator self = true ->
  len (current self) = len (previous self) ->
  ~ (len (current self) = 0 /\ len (previous self) = 0) ->
  pks ≠ [] ->
  (forall pk, pk ∈ pks -> pk ∈ cols) ->
  ix_labels (set_index pks filtered.1) = ix_labels (set_index pks filtered.2) ->
  exists value_diff value_changes,
    compare_values (F:=F) self schema_diff = Ok value_diff
    /\ columns_with_value_changes value_diff = Some value_changes
    /\ forall c entry, value_changes !! c = Some entry ->
         0 < changed_rows entry <= len filtered.1
         /\ len filtered.1 <= len (current self).
Proof.
  intros cols filtered pks _ Hlen Hnonempty Hpks Hkeys Hlabels.
  rewrite compare_values_main by done. cbv zeta. fold cols pks filtered.
  rewrite bool_decide_eq_true_2 by done.
  destruct (list_find (fun pk => pk ∉ cols) pks) as [[i pk]|] eqn:Hfind.
  { apply list_find_Some in Hfind as (Hi & Hpk & _). destruct Hpk.
    apply Hkeys. by eapply list_elem_of_lookup_2. }
  destruct (fast_loop_aligned filtered.1 filtered.2 pks
              (filter (fun c => c ∉ pks) cols) (len (current self)) ∅ Hlabels)
    as (vc & -> & Hvc).
  { intros c Hc. apply list_elem_of_filter in Hc as [_ Hc]. done. }
  eexists _, vc. split; [done|]. split; [done|].
  intros c entry. rewrite Hvc, lookup_empty.
  case_decide as Hc; [|discriminate]. intros [= <-].
  unfold change_entry. cbn [changed_rows].
  destruct Hc as (_ & _ & Hpos).
  destruct (mismatches_le filtered.1 filtered.2 c) as [_ Hle].
  destruct (len_filter_unchanged_le cols (current self) (previous self)) as [Hlen' _].
  fold filtered in Hlen'. split; [split; [exact Hpos | exact Hle] | exact Hlen'].
Qed.

End FastPathBound.


(** ** Exchanging the two tables *)

Section Exchanged.
Context {V : Type} `{!EqDecision V} {F : Type} `{!PyFloat F}.
Implicit Types (self : DFComparator V) (schema_diff : SchemaDiff).

Lemma incompatible_type_cols_exchanged self :
  incompatible_type_cols (compare_schema (exchanged self))
  = incompatible_type_cols (compare_schema self).
Proof.
  unfold incompatible_type_cols. rewrite type_changes_exchanged.
  apply set_eq. intros c. rewrite !elem_of_dom. unfold is_Some.
  setoid_rewrite map_lookup_filter_Some. setoid_rewrite lookup_fmap.
  cbn [snd]. split.
  - intros (change & Hlookup & Hcompat).
    destruct (type_changes (compare_schema self) !! c) as [change'|]; [|done].
    injection Hlookup as <-. exists change'. split; [done|].
    by rewrite are_types_compatible_sym.
  - intros (change & -> & Hcompat). exists (mirrored change). split; [done|].
    by rewrite are_types_compatible_sym.
Qed.

Lemma common_cols_exchanged self :
  common_cols (exchanged self) (compare_schema (exchanged self))
  = common_cols self (compare_schema self).
Proof.
  unfold common_cols. rewrite incompatible_type_cols_exchanged.
  cbn [exchanged current previous]. f_equal. apply set_eq. intros c.
  rewrite !elem_of_intersection, !elem_of_difference, !elem_of_list_to_set. tauto.
Qed.

Lemma filter_unchanged_swap (cols : list string) (cur prev : Frame V) :
  filter_unchanged cols prev cur
  = ((filter_unchanged cols cur prev).2, (filter_unchanged cols cur prev).1).
Proof.
  assert (Hframe : forall f g : Frame V,
            columns f = columns g -> data f = data g -> f = g).
  { intros [] []. simpl. by intros -> ->. }
  unfold filter_unchanged. cbn [fst snd]. f_equal; apply Hframe; try done;
    rewrite !split_origin_data; apply filter_ext_in; intros r _; cbn; lia.
Qed.

Lemma null_safe_equal_sym (a b : cell V) : null_safe_equal a b <-> null_safe_equal b a.
Proof.
  unfold null_safe_equal.
  destruct a as [x|], b as [y|]; simpl; rewrite ?bool_decide_eq_true;
    intuition congruence.
Qed.

Lemma neq_count_sym (s1 s2 : Series V (cell V)) : neq_count s1 s2 = neq_count s2 s1.
Proof.
  destruct (decide (s_index s1 = s_index s2)) as [Heq|Hne].
  - rewrite !neq_count_aligned by done. do 2 f_equal.
    generalize (s_values s1) (s_values s2). intros v1.
    induction v1 as [|a v1 IH]; intros [|b v2]; try done.
    cbn [zip_with]. rewrite !filter_cons. cbn [fst snd].
    pose proof (null_safe_equal_sym a b).
    destruct (decide (~ null_safe_equal a b)), (decide (~ null_safe_equal b a));
      simpl; rewrite ?IH; tauto.
  - rewrite !neq_count_misaligned; done.
Qed.

Lemma fast_loop_sym (cur prev : IndexedFrame V) (pks cols : list string)
    (current_len : Z) (value_changes : gmap string (ChangeEntry F)) :
  fast_loop prev cur pks current_len cols value_changes
  = fast_loop cur prev pks current_len cols value_changes.
Proof.
  revert value_changes. induction cols as [|col cols IH]; intros value_changes;
    cbn [fast_loop]; [done|].
  rewrite (neq_count_sym (ix_getitem prev col)).
  case_bool_decide; [done|]. by destruct (neq_count _ _).
Qed.

Lemma length_filter_pairs_cons {A B : Type}
    (Q : B * A -> Prop) `{!forall x, Decision (Q x)} (a : A) (la : list A) (lb : list B) :
  length (filter Q (b ← lb; a' ← a :: la; [(b, a')]))
  = (length (filter Q (b ← lb; [(b, a)]))
     + length (filter Q (b ← lb; a' ← la; [(b, a')])))%nat.
Proof.
  induction lb as [|b lb IH]; [done|].
  rewrite !bind_cons, !filter_app, !length_app, IH.
  rewrite filter_cons, filter_nil. destruct (decide (Q (b, a))); simpl; lia.
Qed.

Lemma length_filter_pairs_swap {A B : Type}
    (Q : A * B -> Prop) `{!forall x, Decision (Q x)}
    (Q' : B * A -> Prop) `{!forall x, Decision (Q' x)} (la : list A) (lb : list B) :
  (forall a b, Q (a, b) <-> Q' (b, a)) ->
  length (filter Q (a ← la; b ← lb; [(a, b)]))
  = length (filter Q' (b ← lb; a ← la; [(b, a)])).
Proof.
  intros Hiff. induction la as [|a la IH].
  - simpl. induction lb as [|b lb IHb]; [done|]. by rewrite bind_cons.
  - rewrite bind_cons, filter_app, length_app, IH, length_filter_pairs_cons.
    f_equal. clear IH. induction lb as [|b lb IHb]; [done|].
    rewrite !bind_cons, !filter_app, !length_app, IHb, !filter_cons, !filter_nil.
    specialize (Hiff a b).
    destruct (decide (Q (a, b))), (decide (Q' (b, a))); simpl; tauto.
Qed.

Lemma pair_mismatches_sym (keys : list string) (prev cur : Frame V) (c : string) :
  pair_mismatches keys cur prev c = pair_mismatches keys prev cur c.
Proof.
  unfold pair_mismatches. f_equal. apply length_filter_pairs_swap.
  intros a b. cbn [fst snd].
  pose proof (null_safe_equal_sym (cell_at (columns cur) a c)
                                  (cell_at (columns prev) b c)).
  split; intros [<- ?]; tauto.
Qed.

(** X14. The unchanged-row filtering treats the two tables alike: on the
    exchanged comparator the compatible common columns are the same, and
    the two filtered tables are those of the original comparator,
    exchanged. *)
Theorem filter_unchanged_exchanged self :
  filter_unchanged (common_cols (exchanged self) (compare_schema (exchanged self)))
    (current (exchanged self)) (previous (exchanged self))
  = ((filter_unchanged (common_cols self (compare_schema self))
        (current self) (previous self)).2,
     (filter_unchanged (common_cols self (compare_schema self))
        (current self) (previous self)).1).
Proof. rewrite common_cols_exchanged. apply filter_unchanged_swap. Qed.

(** X15. Exchanging the roles of the two tables: for well-formed tables
    with at least one compatible common column, [compare_values] on the
    exchanged comparator raises exactly when it raises on the original one,
    with the same error; otherwise both return, the reported columns with
    their entries are the same, and the row counts are exchanged with the
    difference negated. *)
Theorem compare_values_exchanged self :
  wf_comparator self = true ->
  common_cols self (compare_schema self) ≠ [] ->
  match compare_values (F:=F) self (compare_schema self),
        compare_values (F:=F) (exchanged self) (compare_schema (exchanged self)) with
  | Ok value_diff, Ok value_diff' =>
      columns_with_value_changes value_diff' = columns_with_value_changes value_diff
      /\ RowCountChange.previous (row_count_change value_diff')
         = RowCountChange.current (row_count_change value_diff)
      /\ RowCountChange.current (row_count_change value_diff')
         = RowCountChange.previous (row_count_change value_diff)
      /\ RowCountChange.difference (row_count_change value_diff')
         = - RowCountChange.difference (row_count_change value_diff)
  | Raise e, Raise e' => e' = e
  | _, _ => False
  end.
Proof.
  intros Hwf _.
  destruct (decide (len (current self) = len (previous self))) as [Hlen|Hlen].
  2:{ unfold compare_values, exchanged. cbn [current previous].
      rewrite !bool_decide_eq_true_2 by congruence. cbn. split; [done|lia]. }
  destruct (decide (len (current self) = 0 /\ len (previous self) = 0))
    as [[Hc Hp]|Hnonempty].
  { unfold compare_values, exchanged. cbn [current previous].
    rewrite (bool_decide_eq_false_2 (len (current self) ≠ _))
      by (intros Hne; by apply Hne).
    rewrite (bool_decide_eq_false_2 (len (previous self) ≠ _))
      by (intros Hne; by apply Hne).
    cbv zeta. rewrite !(bool_decide_eq_true_2 (_ = 0)) by done. cbn. done. }
  rewrite (compare_values_main (exchanged self))
    by (cbn [exchanged current previous]; first [congruence | tauto]).
  rewrite (compare_values_main self) by done.
  cbv zeta. rewrite common_cols_exchanged. cbn [exchanged current previous primary_keys].
  rewrite (filter_unchanged_swap (common_cols self (compare_schema self))
             (current self) (previous self)).
  cbn [fst snd]. rewrite <- Hlen.
  set (cols := common_cols self (compare_schema self)).
  set (filtered := filter_unchanged cols (current self) (previous self)).
  set (pks := primary_keys self).
  case_bool_decide as Hpks; [|cbn; split; [done|lia]].
  destruct (list_find (fun pk => pk ∉ cols) pks) as [[i pk]|]; [done|].
  rewrite (fast_loop_sym (set_index pks filtered.1)).
  destruct (fast_loop _ _ _ _ _ _) as [value_changes [e|]]; [|cbn; split; [done|lia]].
  rewrite filter_keys_app
    by (intros c Hc; by apply list_elem_of_filter in Hc as [? _]).
  assert (Hcols : forall c, c ∈ filter (fun c => c ∉ pks) cols ->
            c ∈ cols /\ (c ∉ pks) /\ (c +:+ "_prev" ∉ pks) /\ c +:+ "_curr" ∉ pks).
  { intros c Hc. apply list_elem_of_filter in Hc as [Hkey Hc]. split; [done|].
    split; [done|]. apply elem_of_common_cols in Hc as (Hc & _).
    unfold wf_comparator in Hwf. apply andb_true_iff in Hwf as [_ Hwf].
    apply bool_decide_eq_true in Hwf. rewrite Forall_forall in Hwf. by apply Hwf. }
  destruct (fallback_loop_pairs (F:=F) filtered.2 filtered.1 pks
              (filter (fun c => c ∉ pks) cols) (len (current self)) value_changes
              eq_refl Hcols) as (vc & -> & Hvc).
  destruct (fallback_loop_pairs (F:=F) filtered.1 filtered.2 pks
              (filter (fun c => c ∉ pks) cols) (len (current self)) value_changes
              eq_refl Hcols) as (vc' & -> & Hvc').
  cbn. split; [|lia]. f_equal. apply map_eq. intros c.
  rewrite Hvc, Hvc', pair_mismatches_sym. done.
Qed.

End Exchanged.


(** ** The report *)

Section Report.
Context {V : Type} `{!EqDecision V} {F : Type} `{!PyFloat F}.
Implicit Types (self : DFComparator V) (schema_diff : SchemaDiff).

(** X16. A current table with fewer rows than the previous one always yields
    a report, whatever the declared key, and the report flags a potential
    regression and carries the negative difference. *)
Theorem row_count_decrease_flags_regression self now :
  len (current self) < len (previous self) ->
  exists stats,
    generate_statistics (F:=F) self now = Ok stats
    /\ potential_regression stats = true
    /\ RowCountChange.difference (row_count_change (value_changes stats))
       = len (current self) - len (previous self)
    /\ columns_with_value_changes (value_changes stats) = None.
Proof.
  intros Hlt. unfold generate_statistics, compare_values.
  rewrite bool_decide_eq_true_2 by lia. cbn [bind].
  eexists. split; [reflexivity|].
  cbn [potential_regression value_changes row_count_change
       columns_with_value_changes RowCountChange.difference].
  split_and!; try done.
  rewrite (bool_decide_eq_true_2 (_ < 0)) by lia.
  by rewrite orb_true_r.
Qed.

(** X17. The flag and the summary of a report agree: a potential regression
    is flagged exactly when the summary counts a schema issue (a removed
    column or a type change) or a column with value changes, or the row
    count went down.  A report without the flag has both counts at zero. *)
Theorem potential_regression_summary self now stats :
  generate_statistics (F:=F) self now = Ok stats ->
  (potential_regression stats = true <->
     0 < total_schema_issues (summary stats)
     \/ 0 < summary_columns_with_value_changes (summary stats)
     \/ len (current self) < len (previous self))
  /\ total_schema_issues (summary stats)
     = Z.of_nat (length (removed_columns (schema_changes stats)))
       + Z.of_nat (size (type_changes (schema_changes stats))).
Proof.
  unfold generate_statistics.
  destruct (compare_values self (compare_schema self)) as [value_diff|e] eqn:Hdiff;
    cbn [bind]; [|discriminate].
  apply compare_values_difference in Hdiff.
  intros [= <-]. cbn [potential_regression summary total_schema_issues
                      summary_columns_with_value_changes schema_changes].
  split; [|done].
  assert (Hlist : forall {A} (l : list A), l ≠ [] <-> 0 < Z.of_nat (length l)).
  { intros A [|x l]; simpl; split; (congruence || lia). }
  assert (Hsize : forall {A} (m : gmap string A), m ≠ ∅ <-> 0 < Z.of_nat (size m)).
  { intros A m. rewrite <- map_size_non_empty_iff. generalize (size m). lia. }
  rewrite !orb_true_iff, list_truthy_spec, dict_truthy_spec, bool_decide_eq_true, Hdiff.
  rewrite Hlist, Hsize.
  destruct (columns_with_value_changes value_diff) as [m|];
    cbn [get_truthy default from_option id].
  - rewrite dict_truthy_spec, Hsize. lia.
  - rewrite map_size_empty. split; [intros [[[?|?]|?]|?]; (discriminate || lia) | lia].
Qed.

End Report.

(** ** The properties on concrete tables *)

(** The example of the specification: [changed_rows] 1 out of 2 rows. *)
Example one_change_diff :
  compare_values (F:=fexpr) Examples.one_change (compare_schema Examples.one_change)
  = Ok (full_diff 2 2 1 {["val" := change_entry 1 2]}).
Proof. vm_compute; reflexivity. Qed.

(** The three copies of the row (1, 10) are dropped together; the merge then
    finds no key on both sides. *)
Example duplicate_keys_diff :
  compare_values (F:=fexpr) Examples.duplicate_keys
    (compare_schema Examples.duplicate_keys)
  = Ok (full_diff 2 2 1 ∅).
Proof. vm_compute; reflexivity. Qed.

Example duplicate_keys_changed_diff :
  compare_values (F:=fexpr) Examples.duplicate_keys_changed
    (compare_schema Examples.duplicate_keys_changed)
  = Ok (full_diff 3 3 2 {["val" := change_entry 2 3]}).
Proof. vm_compute; reflexivity. Qed.

Example missing_key_error :
  generate_statistics (F:=fexpr) Examples.missing_key "2024-01-01T00:00:00"
  = Raise (KeyError "Primary key column 'not_a_column' not found in both dataframe").
Proof. vm_compute; reflexivity. Qed.

Lemma compare_values_row_count_mismatch_witness :
  len (current Examples.growth_without_key) ≠ len (previous Examples.growth_without_key)
  /\ compare_values (F:=fexpr) Examples.growth_without_key
       (compare_schema Examples.growth_without_key) =
     Ok {| row_count_change :=
             {| RowCountChange.previous := 1;
                RowCountChange.current := 2;
                RowCountChange.difference := 1 |};
           percentage_row_change := None;
           columns_with_value_changes := None |}.
Proof.
  split; [vm_compute; discriminate|].
  apply (compare_values_row_count_mismatch Examples.growth_without_key).
  vm_compute; discriminate.
Defined.

Lemma compare_values_guards_precede_key_check_witness :
  (forall pk, pk ∈ primary_keys Examples.empty_without_key ->
     (pk ∉ columns (current Examples.empty_without_key))
     /\ (pk ∉ columns (previous Examples.empty_without_key)))
  /\ (exists value_diff,
        compare_values (F:=fexpr) Examples.empty_without_key
          (compare_schema Examples.empty_without_key) = Ok value_diff)
  /\ (exists stats,
        generate_statistics (F:=fexpr) Examples.empty_without_key "2024-01-01T00:00:00"
        = Ok stats).
Proof.
  split.
  - intros pk Hpk. apply list_elem_of_singleton in Hpk as ->.
    split; apply not_elem_of_cons; (split; [discriminate|]);
      apply not_elem_of_cons; (split; [discriminate|]); apply not_elem_of_nil.
  - apply (compare_values_guards_precede_key_check Examples.empty_without_key).
    right. split; reflexivity.
Defined.

Lemma potential_regression_spec_witness :
  (exists stats,
     generate_statistics (F:=fexpr) Examples.one_change "2024-01-01T00:00:00" = Ok stats
     /\ potential_regression stats = true
     /\ exists m, columns_with_value_changes (value_changes stats) = Some m /\ m ≠ ∅)
  /\ (exists stats,
        generate_statistics (F:=fexpr) Examples.growth_without_key "2024-01-01T00:00:00"
        = Ok stats
        /\ potential_regression stats = false).
Proof.
  split.
  - destruct (generate_statistics (F:=fexpr) Examples.one_change "2024-01-01T00:00:00")
      as [stats|e] eqn:Hstats; [|vm_compute in Hstats; discriminate].
    exists stats. split; [reflexivity|].
    assert (Hm : exists m, columns_with_value_changes (value_changes stats) = Some m
                           /\ m ≠ ∅).
    { vm_compute in Hstats. injection Hstats as <-. eexists. split; [reflexivity|].
      intros Hempty. apply (f_equal (fun m => m !! "val")) in Hempty.
      vm_compute in Hempty. discriminate. }
    split; [|exact Hm].
    apply (proj1 (potential_regression_spec Examples.one_change "2024-01-01T00:00:00")
             stats Hstats).
    right. right. right. exact Hm.
  - apply (proj2 (potential_regression_spec Examples.growth_without_key
                    "2024-01-01T00:00:00")).
    + vm_compute. reflexivity.
    + vm_compute. reflexivity.
    + vm_compute. reflexivity.
Defined.

Lemma unchanged_row_filtering_witness :
  let self := Examples.one_change in
  let cols := common_cols self (compare_schema self) in
  let cur_rows := data (select cols (current self)) in
  let prev_rows := data (select cols (previous self)) in
  let filtered := filter_unchanged cols (current self) (previous self) in
  wf_comparator self = true
  /\ cols ≠ []
  /\ data filtered.1
     = filter (fun r => (occurrences id r cur_rows = 1)%nat /\ r ∉ prev_rows) cur_rows
  /\ data filtered.2
     = filter (fun r => (occurrences id r prev_rows = 1)%nat /\ r ∉ cur_rows) prev_rows.
Proof.
  split; [vm_compute; reflexivity|]. split; [vm_compute; discriminate|].
  apply (unchanged_row_filtering Examples.one_change
           (compare_schema Examples.one_change)).
  - vm_compute; reflexivity.
  - vm_compute; discriminate.
Defined.

(** C1, as stated, fails: the current table holds a row twice and the
    previous table does not hold it, yet no occurrence survives. *)
Lemma within_side_duplicates_dropped :
  let self := Examples.repeated_row in
  let cols := common_cols self (compare_schema self) in
  ([Some 1; Some 10] ∈ data (select cols (current self)))
  /\ ([Some 1; Some 10] ∉ data (select cols (previous self)))
  /\ data (filter_unchanged cols (current self) (previous self)).1 = [].
Proof.
  split; [by_compute|]. split; [by_compute|]. vm_compute; reflexivity.
Qed.

(** C2, as stated, fails: the declared key is a column of neither table, the
    row counts differ, and a diff is returned. *)
Lemma missing_key_unnoticed_on_row_count_mismatch :
  let self := Examples.growth_without_key in
  primary_keys self = ["not_a_column"]
  /\ ("not_a_column" ∉ columns (current self))
  /\ ("not_a_column" ∉ columns (previous self))
  /\ compare_values (F:=fexpr) self (compare_schema self) =
       Ok {| row_count_change :=
               {| RowCountChange.previous := 1;
                  RowCountChange.current := 2;
                  RowCountChange.difference := 1 |};
             percentage_row_change := None;
             columns_with_value_changes := None |}
  /\ exists stats, generate_statistics (F:=fexpr) self "2024-01-01T00:00:00" = Ok stats.
Proof.
  split; [reflexivity|]. split; [by_compute|]. split; [by_compute|].
  split; [vm_compute; reflexivity|]. vm_compute. eauto.
Qed.

Lemma missing_key_raises_witness :
  let self := Examples.missing_key in
  exists (i : nat) (pk : string),
    primary_keys self !! i = Some pk
    /\ (pk ∉ common_cols self (compare_schema self))
    /\ (forall (j : nat) pk', primary_keys self !! j = Some pk' -> (j < i)%nat ->
          pk' ∈ common_cols self (compare_schema self))
    /\ compare_values (F:=fexpr) self (compare_schema self)
       = Raise (KeyError (key_error_message pk))
    /\ (compare_schema self = compare_schema self ->
        generate_statistics (F:=fexpr) self "2024-01-01T00:00:00"
        = Raise (KeyError (key_error_message pk))).
Proof.
  apply (missing_key_raises (F:=fexpr) Examples.missing_key
           (compare_schema Examples.missing_key) "2024-01-01T00:00:00").
  - vm_compute; reflexivity.
  - vm_compute; reflexivity.
  - vm_compute. intros [H _]. discriminate H.
  - vm_compute; discriminate.
  - exists "not_a_column". split; [by_compute | left; by_compute].
Defined.

Lemma percentage_row_change_basis_witness :
  let self := Examples.one_change in
  compare_values (F:=fexpr) self (compare_schema self)
  = Ok (full_diff 2 2 1 {["val" := change_entry 1 2]})
  /\ percentage_row_change (full_diff (F:=fexpr) 2 2 1 {["val" := change_entry 1 2]})
     = Some (FRound (FMul (FDiv 1 2) 100) 2).
Proof.
  assert (Hrun : compare_values (F:=fexpr) Examples.one_change
                   (compare_schema Examples.one_change)
                 = Ok (full_diff 2 2 1 {["val" := change_entry 1 2]}))
    by (vm_compute; reflexivity).
  split; [exact Hrun|].
  apply (percentage_row_change_basis (F:=fexpr) Examples.one_change
           (compare_schema Examples.one_change) _) in Hrun.
  - exact Hrun.
  - vm_compute; reflexivity.
  - vm_compute; reflexivity.
  - vm_compute. intros [H _]. discriminate H.
  - vm_compute; discriminate.
Defined.

Lemma reordered_rows_no_change_witness :
  exists value_diff,
    compare_values (F:=fexpr) Examples.reordered (compare_schema Examples.reordered)
    = Ok value_diff
    /\ RowCountChange.difference (row_count_change value_diff) = 0
    /\ columns_with_value_changes value_diff = Some ∅.
Proof.
  apply (reordered_rows_no_change (F:=fexpr) Examples.reordered).
  - vm_compute; reflexivity.
  - reflexivity.
  - reflexivity.
  - apply (Permutation_cons_append [[Some 1; Some 10]; [Some 3; None]] [Some 2; Some 20]).
  - discriminate.
  - intros pk Hpk. apply list_elem_of_singleton in Hpk as ->. by_compute.
Defined.

Lemma fast_path_value_changes_witness :
  let self := Examples.one_change in
  let cols := common_cols self (compare_schema self) in
  let filtered := filter_unchanged cols (current self) (previous self) in
  let pks := primary_keys self in
  ix_labels (set_index pks filtered.1) = ix_labels (set_index pks filtered.2)
  /\ mismatches filtered.1 filtered.2 "val" = 1
  /\ exists value_diff value_changes,
       compare_values (F:=fexpr) self (compare_schema self) = Ok value_diff
       /\ columns_with_value_changes value_diff = Some value_changes
       /\ forall c,
            value_changes !! c =
              if decide (c ∈ cols /\ (c ∉ pks) /\ 0 < mismatches filtered.1 filtered.2 c)
              then Some {| changed_rows := mismatches filtered.1 filtered.2 c;
                           percentage :=
                             round_ndigits
                               (fmul (truediv (mismatches filtered.1 filtered.2 c)
                                              (len (current self)))
                                     100)
                               2 |}
              else None.
Proof.
  split; [vm_compute; reflexivity|]. split; [vm_compute; reflexivity|].
  apply (fast_path_value_changes (F:=fexpr) Examples.one_change
           (compare_schema Examples.one_change)).
  - vm_compute; reflexivity.
  - vm_compute; reflexivity.
  - vm_compute. intros [H _]. discriminate H.
  - discriminate.
  - intros pk Hpk. apply list_elem_of_singleton in Hpk as ->. by_compute.
  - vm_compute; reflexivity.
Defined.

Lemma fallback_value_changes_witness :
  let self := Examples.duplicate_keys_changed in
  let cols := common_cols self (compare_schema self) in
  let filtered := filter_unchanged cols (current self) (previous self) in
  let pks := primary_keys self in
  ix_labels (set_index pks filtered.1) ≠ ix_labels (set_index pks filtered.2)
  /\ pair_mismatches pks filtered.2 filtered.1 "val" = 2
  /\ exists value_diff value_changes,
       compare_values (F:=fexpr) self (compare_schema self) = Ok value_diff
       /\ columns_with_value_changes value_diff = Some value_changes
       /\ forall c,
            value_changes !! c =
              if decide (c ∈ cols /\ (c ∉ pks)
                         /\ 0 < pair_mismatches pks filtered.2 filtered.1 c)
              then Some {| changed_rows := pair_mismatches pks filtered.2 filtered.1 c;
                           percentage :=
                             round_ndigits
                               (fmul (truediv (pair_mismatches pks filtered.2 filtered.1 c)
                                              (len (current self)))
                                     100)
                               2 |}
              else None.
Proof.
  split; [by_compute|]. split; [vm_compute; reflexivity|].
  apply (fallback_value_changes (F:=fexpr) Examples.duplicate_keys_changed
           (compare_schema Examples.duplicate_keys_changed)).
  - vm_compute; reflexivity.
  - vm_compute; reflexivity.
  - vm_compute. intros [H _]. discriminate H.
  - discriminate.
  - intros pk Hpk. apply list_elem_of_singleton in Hpk as ->. by_compute.
  - by_compute.
Defined.

(** ** The further properties on concrete tables *)

Lemma are_types_compatible_not_transitive_witness :
  in_family numeric_types "int64"
  /\ in_family string_types "object"
  /\ _are_types_compatible "int64" ("int64" +:+ "object") = true
  /\ _are_types_compatible ("int64" +:+ "object") "object" = true
  /\ _are_types_compatible "int64" "object" = false.
Proof.
  assert (Hnum : in_family numeric_types "int64") by (apply any_in_spec; reflexivity).
  assert (Htext : in_family string_types "object") by (apply any_in_spec; reflexivity).
  split; [exact Hnum|]. split; [exact Htext|].
  apply (are_types_compatible_not_transitive "int64" "object" Hnum Htext).
  reflexivity.
Defined.

Lemma compare_schema_reordered_columns_witness :
  let self := Examples.reordered_columns in
  columns (current self) ≠ columns (previous self)
  /\ added_columns (compare_schema self) = []
  /\ removed_columns (compare_schema self) = []
  /\ type_changes (compare_schema self) = ∅
  /\ total_columns_current (compare_schema self)
     = total_columns_previous (compare_schema self).
Proof.
  split; [discriminate|].
  apply (compare_schema_reordered_columns Examples.reordered_columns).
  - by_compute.
  - intros c Hc. cbn in Hc.
    repeat (apply elem_of_cons in Hc as [->|Hc]; [reflexivity|]).
    by apply not_elem_of_nil in Hc.
Defined.

Lemma reported_columns_witness :
  let self := Examples.one_change in
  let entry := change_entry (F:=fexpr) 1 2 in
  wf_comparator self = true
  /\ compare_values (F:=fexpr) self (compare_schema self)
     = Ok (full_diff 2 2 1 {["val" := entry]})
  /\ "val" ∈ columns (current self)
  /\ "val" ∈ columns (previous self)
  /\ ("val" ∉ incompatible_type_cols (compare_schema self))
  /\ ("val" ∉ primary_keys self)
  /\ 0 < changed_rows entry
  /\ percentage entry
     = round_ndigits (fmul (truediv (changed_rows entry) (len (current self))) 100) 2.
Proof.
  split; [vm_compute; reflexivity|]. split; [vm_compute; reflexivity|].
  apply (reported_columns (F:=fexpr) Examples.one_change
           (compare_schema Examples.one_change)
           (full_diff 2 2 1 {["val" := change_entry 1 2]})
           {["val" := change_entry 1 2]} "val" (change_entry 1 2)).
  - vm_compute; reflexivity.
  - vm_compute; reflexivity.
  - reflexivity.
  - vm_compute; reflexivity.
Defined.



Lemma filter_unchanged_invariants_witness :
  let self := Examples.duplicate_keys in
  let cols := common_cols self (compare_schema self) in
  let filtered := filter_unchanged cols (current self) (previous self) in
  len filtered.1 = 1
  /\ len filtered.2 = 0
  /\ sublist (data filtered.1) (data (select cols (current self)))
  /\ sublist (data filtered.2) (data (select cols (previous self)))
  /\ NoDup (data filtered.1)
  /\ NoDup (data filtered.2)
  /\ (forall r, r ∈ data filtered.1 -> r ∉ data filtered.2)
  /\ len filtered.1 <= len (current self)
  /\ len filtered.2 <= len (previous self).
Proof.
  split; [vm_compute; reflexivity|]. split; [vm_compute; reflexivity|].
  apply (filter_unchanged_invariants Examples.duplicate_keys
           (compare_schema Examples.duplicate_keys)).
  - vm_compute; reflexivity.
  - vm_compute; discriminate.
Defined.


Lemma fast_path_changed_rows_bound_witness :
  let self := Examples.one_change in
  let cols := common_cols self (compare_schema self) in
  let filtered := filter_unchanged cols (current self) (previous self) in
  let pks := primary_keys self in
  ix_labels (set_index pks filtered.1) = ix_labels (set_index pks filtered.2)
  /\ exists value_diff value_changes,
       compare_values (F:=fexpr) self (compare_schema self) = Ok value_diff
       /\ columns_with_value_changes value_diff = Some value_changes
       /\ forall c entry, value_changes !! c = Some entry ->
            0 < changed_rows entry <= len filtered.1
            /\ len filtered.1 <= len (current self).
Proof.
  split; [vm_compute; reflexivity|].
  apply (fast_path_changed_rows_bound (F:=fexpr) Examples.one_change
           (compare_schema Examples.one_change)).
  - vm_compute; reflexivity.
  - vm_compute; reflexivity.
  - vm_compute. intros [H _]. discriminate H.
  - discriminate.
  - intros pk Hpk. apply list_elem_of_singleton in Hpk as ->. by_compute.
  - vm_compute; reflexivity.
Defined.

Lemma compare_values_exchanged_witness :
  let self := Examples.duplicate_keys_changed in
  wf_comparator self = true
  /\ common_cols self (compare_schema self) ≠ []
  /\ match compare_values (F:=fexpr) self (compare_schema self),
           compare_values (F:=fexpr) (exchanged self) (compare_schema (exchanged self))
     with
     | Ok value_diff, Ok value_diff' =>
         columns_with_value_changes value_diff' = columns_with_value_changes value_diff
         /\ RowCountChange.previous (row_count_change value_diff')
            = RowCountChange.current (row_count_change value_diff)
         /\ RowCountChange.current (row_count_change value_diff')
            = RowCountChange.previous (row_count_change value_diff)
         /\ RowCountChange.difference (row_count_change value_diff')
            = - RowCountChange.difference (row_count_change value_diff)
     | Raise e, Raise e' => e' = e
     | _, _ => False
     end.
Proof.
  split; [vm_compute; reflexivity|]. split; [vm_compute; discriminate|].
  apply (compare_values_exchanged (F:=fexpr) Examples.duplicate_keys_changed).
  - vm_compute; reflexivity.
  - vm_compute; discriminate.
Defined.

Lemma row_count_decrease_flags_regression_witness :
  let self := Examples.fewer_rows in
  len (current self) < len (previous self)
  /\ exists stats,
       generate_statistics (F:=fexpr) self "2024-01-01T00:00:00" = Ok stats
       /\ potential_regression stats = true
       /\ RowCountChange.difference (row_count_change (value_changes stats))
          = len (current self) - len (previous self)
       /\ columns_with_value_changes (value_changes stats) = None.
Proof.
  split; [reflexivity|].
  apply (row_count_decrease_flags_regression (F:=fexpr) Examples.fewer_rows).
  reflexivity.
Defined.

Lemma potential_regression_summary_witness :
  let self := Examples.one_change in
  exists stats,
    generate_statistics (F:=fexpr) self "2024-01-01T00:00:00" = Ok stats
    /\ (potential_regression stats = true <->
          0 < total_schema_issues (summary stats)
          \/ 0 < summary_columns_with_value_changes (summary stats)
          \/ len (current self) < len (previous self))
    /\ total_schema_issues (summary stats)
       = Z.of_nat (length (removed_columns (schema_changes stats)))
         + Z.of_nat (size (type_changes (schema_changes stats))).
Proof.
  cbv zeta.
  destruct (generate_statistics (F:=fexpr) Examples.one_change "2024-01-01T00:00:00")
    as [stats|e] eqn:Hstats; [|vm_compute in Hstats; discriminate Hstats].
  exists stats. split; [reflexivity|].
  apply (potential_regression_summary (F:=fexpr) Examples.one_change
           "2024-01-01T00:00:00" stats).
  exact Hstats.
Defined.
